(** * The transliteration extension of tanglish-tiptap

    A shallow embedding of [extension.ts]: the three editor commands
    ([setTransliteration], [toggleTransliteration], [transliterateSelection]),
    the two input handlers of the ProseMirror plugin ([handleTextInput],
    [handleKeyDown]) and the suggestion notifier ([update]).

    The transliteration engine and the editor are libraries the extension
    calls into.  The engine is a record of three pure functions.  Of the
    editor we model what the extension reads and writes: a document made of
    text blocks, positions in it, [textBetween], and transactions made of
    [delete], [insertText] and [replaceWith] steps. *)

From Stdlib Require Import ZArith NArith Lia Ascii String Uint63 Floats.PrimFloat.
From stdpp Require Import base option list strings.

Open Scope nat_scope.

(** ** JavaScript strings *)

(** A JavaScript string is a sequence of UTF-16 code units; [length],
    [===] and a regular expression without the [u] flag all work on code
    units. *)
Abbreviation char16 := N (only parsing).
Abbreviation jsstring := (list char16) (only parsing).

(** ASCII literals, for key names and test data. *)
Fixpoint js (s : string) : jsstring :=
  match s with
  | EmptyString => []
  | String a rest => N_of_ascii a :: js rest
  end.

(** The object replacement character, passed as [leafText] by the handlers. *)
Definition ufffc : char16 := 0xFFFC%N.

(** The class [\s] of ECMAScript: WhiteSpace (TAB, VT, FF, SP, NBSP, ZWNBSP
    and the Unicode category Zs) and LineTerminator (LF, CR, LS, PS). *)
Definition isWhiteSpace (c : char16) : bool :=
  (N.leb 0x09 c && N.leb c 0x0D)
  || N.eqb c 0x20 || N.eqb c 0xA0 || N.eqb c 0x1680
  || (N.leb 0x2000 c && N.leb c 0x200A)
  || N.eqb c 0x2028 || N.eqb c 0x2029 || N.eqb c 0x202F
  || N.eqb c 0x205F || N.eqb c 0x3000 || N.eqb c 0xFEFF.

(** [\S] *)
Definition isNonSpace (c : char16) : bool := negb (isWhiteSpace c).

(** [s.match(/(\S+)$/)], returning capture group 1.  The matcher tries the
    start positions from left to right; at a start position [\S+] followed by
    [$] matches exactly when the rest of the input is a non-empty run of [\S].
    The first start position that matches wins. *)
Fixpoint lastWord (s : jsstring) : option jsstring :=
  match s with
  | [] => None
  | _ :: rest => if forallb isNonSpace s then Some s else lastWord rest
  end.

(** [Array.prototype.includes] on an array of strings. *)
Definition includes (xs : list jsstring) (x : jsstring) : bool :=
  existsb (fun y => bool_decide (y = x)) xs.

(** A JavaScript number is a binary64 float. *)
Abbreviation number := float (only parsing).

(** [s.length] as a number (exact below 2^53). *)
Definition length_number (s : jsstring) : number :=
  PrimFloat.of_uint63 (Uint63.of_Z (Z.of_nat (length s))).

(** ** The engine (package @piraisoodan/tanglish) *)

Record Suggestion : Type := mkSuggestion {
  input : jsstring;
  output : jsstring
}.

(** [TanglishSuggestion]: a [Suggestion] with the two alias fields. *)
Record TanglishSuggestion : Type := mkTanglishSuggestion {
  ts_input : jsstring;
  ts_output : jsstring;
  tanglish : jsstring;
  tamil : jsstring
}.

(** The extension uses three methods of [TransliterationEngine]. *)
Record TransliterationEngine : Type := mkEngine {
  transliterate : jsstring -> jsstring;
  containsTargetScript : jsstring -> bool;
  getSuggestions : jsstring -> number -> list Suggestion
}.

(** ** The editor document (package prosemirror-model) *)

(** Inline content of a text block: a code unit of a text node, or a leaf
    node (image, mention, hard break), which carries the text its node type
    renders it as when [textBetween] gets no [leafText] argument.  Each of
    the two takes one position. *)
Inductive inline : Type :=
  | Chr (c : char16)
  | Leaf (specLeafText : jsstring).

Abbreviation textblock := (list inline) (only parsing).

(** A document is a sequence of text blocks.  A block takes one position for
    its opening token, one per inline item and one for its closing token. *)
Abbreviation document := (list textblock) (only parsing).

Definition nodeSize (b : textblock) : nat := length b + 2.

(** [node.textBetween(from, to, undefined, leafText)] on inline content:
    [from] and [to] are offsets into the content. *)
Definition inlineText (leafText : option jsstring) (x : inline) : jsstring :=
  match x with
  | Chr c => [c]
  | Leaf spec => match leafText with Some t => t | None => spec end
  end.

Definition textBetween (leafText : option jsstring) (b : textblock)
    (from to : nat) : jsstring :=
  concat (map (inlineText leafText) (take (to - from) (drop from b))).

(** [doc.textBetween(from, to, undefined, leafText)]: the blocks contribute
    their text in the range, with no separator.  The content of the first
    block starts at position 1. *)
Fixpoint docTextBetween (leafText : option jsstring) (d : document)
    (from to : nat) : jsstring :=
  match d with
  | [] => []
  | b :: rest =>
      textBetween leafText b (from - 1) (to - 1)
      ++ docTextBetween leafText rest (from - nodeSize b) (to - nodeSize b)
  end.

(** [doc.resolve(pos)].  The parent of a position inside the content of
    block [index] is that block; between blocks the parent is the document
    itself and [parentOffset] is the position. *)
Inductive ParentNode : Type :=
  | TheDoc
  | Block (index : nat) (content : textblock).

Record ResolvedPos : Type := mkResolvedPos {
  parent : ParentNode;
  parentOffset : nat
}.

Fixpoint resolveFrom (index consumed : nat) (d : document) (pos : nat)
    : option ResolvedPos :=
  match d with
  | [] =>
      if pos =? 0 then Some (mkResolvedPos TheDoc consumed) else None
  | b :: rest =>
      if pos =? 0 then Some (mkResolvedPos TheDoc consumed)
      else if pos <=? S (length b)
      then Some (mkResolvedPos (Block index b) (pos - 1))
      else resolveFrom (S index) (consumed + nodeSize b) rest (pos - nodeSize b)
  end.

(** [None] is the [RangeError] for a position outside the document. *)
Definition resolve (d : document) (pos : nat) : option ResolvedPos :=
  resolveFrom 0 0 d pos.

(** [resolvedPos.parent.textBetween(0, resolvedPos.parentOffset, undefined, leafText)] *)
Definition parentTextBefore (leafText : option jsstring) (d : document)
    (rp : ResolvedPos) : jsstring :=
  match parent rp with
  | Block _ b => textBetween leafText b 0 (parentOffset rp)
  | TheDoc => docTextBetween leafText d 0 (parentOffset rp)
  end.

(** ** Transactions (package prosemirror-state) *)

Inductive Step : Type :=
  | StepDelete (from to : nat)
  | StepInsertText (text : jsstring) (pos : nat)
  | StepReplaceWith (from to : nat) (text : jsstring).

(** A transaction is the sequence of its steps; [state.tr] has none. *)
Abbreviation Transaction := (list Step) (only parsing).

Definition newTr : Transaction := [].
Definition tr_delete (tr : Transaction) (from to : nat) : Transaction :=
  tr ++ [StepDelete from to].
Definition tr_insertText (tr : Transaction) (text : jsstring) (pos : nat)
    : Transaction :=
  tr ++ [StepInsertText text pos].
Definition tr_replaceWith (tr : Transaction) (from to : nat) (text : jsstring)
    : Transaction :=
  tr ++ [StepReplaceWith from to text].

(** [schema.text(s)]: the constructor of text nodes throws on the empty
    string. *)
Definition schema_text (s : jsstring) : option jsstring :=
  match s with
  | [] => None
  | _ => Some s
  end.

(** What a step does to the document, for a range that lies in the content
    of one text block: the items in the range give way to the new text.
    Ranges that cross a block boundary (the editor joins blocks there) are
    outside this model, and give [None]. *)
Definition replaceRange (d : document) (from to : nat) (text : jsstring)
    : option document :=
  match resolve d from, resolve d to with
  | Some (mkResolvedPos (Block i b) o1), Some (mkResolvedPos (Block j _) o2) =>
      if (i =? j) && (o1 <=? o2)
      then Some (<[i := take o1 b ++ map Chr text ++ drop o2 b]> d)
      else None
  | _, _ => None
  end.

Definition applyStep (d : document) (s : Step) : option document :=
  match s with
  | StepDelete from to => replaceRange d from to []
  | StepInsertText text pos => replaceRange d pos pos text
  | StepReplaceWith from to text => replaceRange d from to text
  end.

Fixpoint applyTransaction (d : document) (tr : Transaction) : option document :=
  match tr with
  | [] => Some d
  | s :: rest =>
      match applyStep d s with
      | Some d' => applyTransaction d' rest
      | None => None
      end
  end.

(** ** Editor state and view *)

Record Selection : Type := mkSelection {
  sel_from : nat;
  sel_to : nat
}.

Record EditorState : Type := mkEditorState {
  doc : document;
  selection : Selection
}.

(** The rectangle [view.coordsAtPos] returns. *)
Record Coords : Type := mkCoords {
  left : number;
  right : number;
  top : number;
  bottom : number
}.

Record EditorView : Type := mkEditorView {
  state : EditorState;
  coordsAtPos : nat -> Coords
}.

(** The [position] argument of [onSuggestionsUpdate]. *)
Record Position : Type := mkPosition {
  pos_top : number;
  pos_left : number
}.

Record KeyboardEvent : Type := mkKeyboardEvent {
  key : jsstring
}.

(** ** The extension *)

(** What a call does to the outside: a transaction handed to [dispatch], or a
    call of the [onSuggestionsUpdate] callback.  The editor applies a
    dispatched transaction ([applyTransaction]) and then runs [update] of the
    plugin view; that run is a call of [update] of its own, not an effect of
    the call that dispatched. *)
Inductive Effect : Type :=
  | Dispatch (tr : Transaction)
  | SuggestionsUpdate (suggestions : list TanglishSuggestion)
      (position : option Position).

(** [addStorage] *)
Record Storage : Type := mkStorage {
  engine : option TransliterationEngine;
  enabled : bool
}.

(** The storage of the extension and the effects so far, oldest first. *)
Record World : Type := mkWorld {
  storage : Storage;
  trace : list Effect
}.

(** Computations read and write the world; [None] is a thrown exception. *)
Definition M (A : Type) : Type := World -> option (A * World).

#[global]
Instance M_ret : MRet M := fun A (a : A) (w : World) => Some (a, w).

#[global]
Instance M_bind : MBind M := fun A B (f : A -> M B) (m : M A) (w : World) =>
  match m w with
  | Some (a, w') => f a w'
  | None => None
  end.

Definition getStorage : M Storage := fun w => Some (storage w, w).

Definition setEnabled (b : bool) : M unit := fun w =>
  Some (tt, mkWorld (mkStorage (engine (storage w)) b) (trace w)).

Definition setEngine (e : TransliterationEngine) : M unit := fun w =>
  Some (tt, mkWorld (mkStorage (Some e) (enabled (storage w))) (trace w)).

Definition emit (e : Effect) : M unit := fun w =>
  Some (tt, mkWorld (storage w) (trace w ++ [e])).

Definition throw {A : Type} : M A := fun _ => None.

Definition orThrow {A : Type} (o : option A) : M A :=
  match o with
  | Some a => mret a
  | None => throw
  end.

(** [view.dispatch(tr)], and [dispatch(tr)] in a command. *)
Definition dispatch (tr : Transaction) : M unit := emit (Dispatch tr).

(** A [Suggestion] spread into a [TanglishSuggestion]:
    [{ ...s, tanglish: s.input, tamil: s.output }]. *)
Definition withAliases (s : Suggestion) : TanglishSuggestion :=
  {| ts_input := input s; ts_output := output s;
     tanglish := input s; tamil := output s |}.

Section Extension.

Context {LanguageConfig : Type}.
Variable newEngine : LanguageConfig -> TransliterationEngine.
Variable tamilConfig : LanguageConfig.

(** [TransliterationOptions].  [onSuggestionsUpdate] tells whether the
    optional callback is configured; its calls are [SuggestionsUpdate]
    effects. *)
Record Options : Type := mkOptions {
  opt_enabled : bool;
  language : LanguageConfig;
  triggerChars : list jsstring;
  onSuggestionsUpdate : bool;
  minCharsForSuggestion : number;
  maxSuggestions : number
}.

Definition addOptions : Options :=
  {| opt_enabled := false;
     language := tamilConfig;
     triggerChars := [js " "; js "Enter"];
     onSuggestionsUpdate := false;
     minCharsForSuggestion := 2%float;
     maxSuggestions := 8%float |}.

Definition addStorage : Storage :=
  {| engine := None; enabled := false |}.

Variable options : Options.

Definition onCreate : M unit :=
  setEngine (newEngine (language options));;
  setEnabled (opt_enabled options).

(** [this.options.onSuggestionsUpdate(suggestions, position)] *)
Definition callOnSuggestionsUpdate (suggestions : list TanglishSuggestion)
    (position : option Position) : M unit :=
  emit (SuggestionsUpdate suggestions position).

(** *** Commands *)

Definition setTransliteration (b : bool) : M bool :=
  setEnabled b;;
  (if negb b && onSuggestionsUpdate options
   then callOnSuggestionsUpdate [] None
   else mret tt);;
  mret true.

Definition toggleTransliteration : M bool :=
  st ← getStorage;
  setTransliteration (negb (enabled st)).

(** [hasDispatch] is false in a dry run ([editor.can()]), where the command
    gets no [dispatch] function. *)
Definition transliterateSelection (st : EditorState) (hasDispatch : bool)
    : M bool :=
  sto ← getStorage;
  match engine sto with
  | None => mret false
  | Some eng =>
      let from := sel_from (selection st) in
      let to := sel_to (selection st) in
      if from =? to then mret false
      else
        let selectedText := docTextBetween None (doc st) from to in
        let transliterated := transliterate eng selectedText in
        if bool_decide (transliterated = selectedText) then mret false
        else
          (if hasDispatch
           then
             node ← orThrow (schema_text transliterated);
             dispatch (tr_replaceWith newTr from to node)
           else mret tt);;
          mret true
  end.

(** *** Plugin props *)

Definition handleTextInput (view : EditorView) (from to : nat)
    (text : jsstring) : M bool :=
  sto ← getStorage;
  match (if enabled sto then engine sto else None) with
  | None => mret false
  | Some eng =>
      let isTrigger := includes (triggerChars options) text in
      if isTrigger then
        resolvedPos ← orThrow (resolve (doc (state view)) from);
        let textBefore :=
          parentTextBefore (Some [ufffc]) (doc (state view)) resolvedPos in
        match lastWord textBefore with
        | None => mret false
        | Some word =>
            let wordStart := from - length word in
            if containsTargetScript eng word then mret false
            else
              let transliterated := transliterate eng word in
              if bool_decide (transliterated = word) then mret false
              else
                let tr :=
                  tr_insertText (tr_delete newTr wordStart from)
                    (transliterated ++ text) wordStart in
                dispatch tr;;
                (if onSuggestionsUpdate options
                 then callOnSuggestionsUpdate [] None
                 else mret tt);;
                mret true
        end
      else mret false
  end.

Definition handleKeyDown (view : EditorView) (event : KeyboardEvent)
    : M bool :=
  sto ← getStorage;
  match (if bool_decide (key event = js "Enter") && enabled sto
         then engine sto else None) with
  | None => mret false
  | Some eng =>
      let st := state view in
      let from := sel_from (selection st) in
      resolvedPos ← orThrow (resolve (doc st) from);
      let textBefore := parentTextBefore (Some [ufffc]) (doc st) resolvedPos in
      match lastWord textBefore with
      | None => mret false
      | Some word =>
          let suggestions := getSuggestions eng word 1%float in
          if (0 <? length suggestions)
             && PrimFloat.leb (minCharsForSuggestion options) (length_number word)
          then mret false
          else
            (if negb (containsTargetScript eng word)
             then
               let transliterated := transliterate eng word in
               if negb (bool_decide (transliterated = word))
               then
                 let wordStart := from - length word in
                 let tr :=
                   tr_insertText (tr_delete newTr wordStart from)
                     transliterated wordStart in
                 dispatch tr;;
                 (if onSuggestionsUpdate options
                  then callOnSuggestionsUpdate [] None
                  else mret tt)
               else mret tt
             else mret tt);;
            mret false
      end
  end.

(** *** Plugin view *)

Definition update (view : EditorView) : M unit :=
  sto ← getStorage;
  match (if enabled sto && onSuggestionsUpdate options
         then engine sto else None) with
  | None => mret tt
  | Some eng =>
      let st := state view in
      let from := sel_from (selection st) in
      resolvedPos ← orThrow (resolve (doc st) from);
      let textBefore := parentTextBefore (Some [ufffc]) (doc st) resolvedPos in
      match lastWord textBefore with
      | None => callOnSuggestionsUpdate [] None
      | Some word =>
          if PrimFloat.ltb (length_number word) (minCharsForSuggestion options)
          then callOnSuggestionsUpdate [] None
          else if containsTargetScript eng word
          then callOnSuggestionsUpdate [] None
          else
            let rawSuggestions :=
              getSuggestions eng word (maxSuggestions options) in
            let suggestions := map withAliases rawSuggestions in
            if length suggestions =? 0
            then callOnSuggestionsUpdate [] None
            else
              let coords := coordsAtPos view from in
              callOnSuggestionsUpdate suggestions
                (Some {| pos_top := (bottom coords + 4)%float;
                         pos_left := left coords |})
      end
  end.

End Extension.

(** [createSuggestionHandler(config).getSuggestions] *)
Definition handler_getSuggestions (eng : TransliterationEngine)
    (query : jsstring) (limit : number) : list TanglishSuggestion :=
  map withAliases (getSuggestions eng query limit).

(** ** The standalone suggestion handler *)

Section SuggestionHandler.

Context {LanguageConfig : Type}.
Variable newEngine : LanguageConfig -> TransliterationEngine.
Variable tamilConfig : LanguageConfig.

(** The object [createSuggestionHandler] returns. *)
Record SuggestionHandler : Type := mkSuggestionHandler {
  h_engine : TransliterationEngine;
  h_getSuggestions : jsstring -> option number -> list TanglishSuggestion;
  h_transliterate : jsstring -> jsstring;
  h_containsTargetScript : jsstring -> bool
}.

(** [config] and [limit] are optional arguments: [config || tamilConfig],
    [limit = 10]. *)
Definition createSuggestionHandler (config : option LanguageConfig)
    : SuggestionHandler :=
  let engine :=
    newEngine (match config with Some c => c | None => tamilConfig end) in
  {| h_engine := engine;
     h_getSuggestions := fun query limit =>
       let limit := match limit with Some l => l | None => 10%float end in
       let rawSuggestions := getSuggestions engine query limit in
       map withAliases rawSuggestions;
     h_transliterate := fun text => transliterate engine text;
     h_containsTargetScript := fun text => containsTargetScript engine text |}.

End SuggestionHandler.

(** ** Notions used in the statements *)

(** The world of a fresh extension, before [onCreate]. *)
Definition initialWorld : World := {| storage := addStorage; trace := [] |}.

(** A callback call that clears the suggestions: [([], null)]. *)
Definition isClear (e : Effect) : bool :=
  match e with
  | SuggestionsUpdate [] None => true
  | _ => false
  end.

(** A callback call carries a position exactly when it carries
    suggestions. *)
Definition anchored (e : Effect) : bool :=
  match e with
  | SuggestionsUpdate [] None => true
  | SuggestionsUpdate (_ :: _) (Some _) => true
  | SuggestionsUpdate _ _ => false
  | Dispatch _ => true
  end.


(** The code unit an inline item renders as when [leafText] is U+FFFC. *)
Definition renderUnit (x : inline) : char16 :=
  match x with
  | Chr c => c
  | Leaf _ => ufffc
  end.

(** Word extraction in the words of the specification: the longest suffix of
    the substring [[0, offset)] that contains no whitespace, and none when
    that suffix is empty.  The suffix is read off from the end of the
    substring backwards, as long as no whitespace is met. *)
Fixpoint leadingRun (s : jsstring) : jsstring :=
  match s with
  | [] => []
  | c :: rest => if isWhiteSpace c then [] else c :: leadingRun rest
  end.

Definition longestNonSpaceSuffix (s : jsstring) : jsstring :=
  rev (leadingRun (rev s)).

Definition spec_wordExtraction (T : jsstring) (offset : nat)
    : option jsstring :=
  match longestNonSpaceSuffix (take offset T) with
  | [] => None
  | w => Some w
  end.

(** The position at which the content of block [i] starts. *)
Definition contentStart (d : document) (i : nat) : nat :=
  S (sum_list (map nodeSize (take i d))).

(** The effects a call adds to the trace. *)
Definition notifications (cb : bool) : list Effect :=
  if cb then [SuggestionsUpdate [] None] else [].

Definition isSuggestionsUpdate (e : Effect) : bool :=
  match e with
  | SuggestionsUpdate _ _ => true
  | Dispatch _ => false
  end.

(** ** Sample data *)

(** A small engine in the manner of the Tamil one: it knows two words, sees
    the Tamil block U+0B80..U+0BFF as the target script, and suggests
    "vanakkam" for its non-empty prefixes when the limit allows one entry. *)
Definition vanakkam_ta : jsstring :=
  [0x0BB5; 0x0BA3; 0x0B95; 0x0BCD; 0x0B95; 0x0BAE; 0x0BCD]%N.
Definition nandri_ta : jsstring :=
  [0x0BA8; 0x0BA9; 0x0BCD; 0x0BB1; 0x0BBF]%N.

Definition isTamil (c : char16) : bool := N.leb 0x0B80 c && N.leb c 0x0BFF.

Definition sampleEngine : TransliterationEngine :=
  {| transliterate := fun s =>
       if bool_decide (s = js "vanakkam") then vanakkam_ta
       else if bool_decide (s = js "nandri") then nandri_ta
       else s;
     containsTargetScript := existsb isTamil;
     getSuggestions := fun query limit =>
       if bool_decide (query `prefix_of` js "vanakkam")
          && (0 <? length query) && PrimFloat.leb 1 limit
       then [mkSuggestion (js "vanakkam") vanakkam_ta]
       else [] |}.

Definition sampleOptions : @Options unit :=
  {| opt_enabled := true;
     language := tt;
     triggerChars := [js " "; js "Enter"];
     onSuggestionsUpdate := true;
     minCharsForSuggestion := 2%float;
     maxSuggestions := 8%float |}.

Definition sampleWorld : World :=
  {| storage := {| engine := Some sampleEngine; enabled := true |};
     trace := [] |}.

(** A view on a document of one paragraph holding [s], the cursor at its
    end. *)
Definition sampleView (s : jsstring) : EditorView :=
  {| state := {| doc := [map Chr s];
                 selection := mkSelection (S (length s)) (S (length s)) |};
     coordsAtPos := fun _ =>
       {| left := 120%float; right := 120%float;
          top := 20%float; bottom := 36%float |} |}.

Definition disabledWorld : World :=
  {| storage := {| engine := Some sampleEngine; enabled := false |};
     trace := [] |}.

(** The paragraph "vanakkam", wholly selected. *)
Definition selectionState : EditorState :=
  {| doc := [map Chr (js "vanakkam")]; selection := mkSelection 1 9 |}.

(** A paragraph "a", an image, "b", with the cursor at its end. *)
Definition imageBlock : textblock := [Chr 97%N; Leaf []; Chr 98%N].

Definition imageView : EditorView :=
  {| state := {| doc := [imageBlock]; selection := mkSelection 4 4 |};
     coordsAtPos := coordsAtPos (sampleView []) |}.

(** An engine that writes the Tamil letter A for every code unit, in a world
    with transliteration enabled. *)
Definition letterWorld : World :=
  {| storage :=
       {| engine :=
            Some {| transliterate := map (fun _ => 0x0B85%N);
                    containsTargetScript := existsb isTamil;
                    getSuggestions := fun _ _ => [] |};
          enabled := true |};
     trace := [] |}.

(** An engine whose transliteration of every text is the empty string, in a
    world with transliteration enabled. *)
Definition erasingWorld : World :=
  {| storage :=
       {| engine :=
            Some {| transliterate := fun _ => [];
                    containsTargetScript := existsb isTamil;
                    getSuggestions := fun _ _ => [] |};
          enabled := true |};
     trace := [] |}.

(** The engine constructor of the samples, over a one-point configuration
    type. *)
Definition sampleNewEngine (config : unit) : TransliterationEngine :=
  sampleEngine.

Definition enterKey : KeyboardEvent := {| key := js "Enter" |}.

(** * Properties *)

(** ** Word extraction *)

Lemma last_whitespace_not_word (s : jsstring) (c : char16) :
  last s = Some c -> isWhiteSpace c = true -> forallb isNonSpace s = false.
Proof.
  intros Hl Hc. apply not_true_is_false. intros Hall.
  rewrite forallb_forall in Hall.
  assert (Hin : In c s).
  { apply list_elem_of_In. apply last_Some_elem_of. exact Hl. }
  specialize (Hall c Hin). unfold isNonSpace in Hall. rewrite Hc in Hall.
  discriminate.
Qed.

(** No match: the input is empty or its last code unit is whitespace. *)
Lemma lastWord_None (s : jsstring) :
  lastWord s = None <->
  s = [] \/ exists c, last s = Some c /\ isWhiteSpace c = true.
Proof.
  induction s as [|c rest IH].
  - simpl. split; auto.
  - cbn [lastWord]. destruct (forallb isNonSpace (c :: rest)) eqn:Hall.
    + split; [discriminate|].
      intros [Hnil | (c' & Hl & Hc')]; [discriminate|].
      rewrite (last_whitespace_not_word _ _ Hl Hc') in Hall. discriminate.
    + rewrite IH. split.
      * intros [-> | (c' & Hl & Hc')].
        -- right. exists c. split; [reflexivity|].
           simpl in Hall. rewrite andb_true_r in Hall.
           unfold isNonSpace in Hall. now apply negb_false_iff in Hall.
        -- right. exists c'. split; [|exact Hc'].
           destruct rest; [discriminate|]. exact Hl.
      * intros [Hnil | (c' & Hl & Hc')]; [discriminate|].
        destruct rest as [|c2 rest']; [now left|].
        right. exists c'. split; [exact Hl | exact Hc'].
Qed.

(** A match is the longest suffix free of whitespace: it is not empty, it is
    a suffix, it has no whitespace, and every suffix without whitespace is a
    suffix of it. *)
Lemma lastWord_Some (s w : jsstring) :
  lastWord s = Some w ->
  w <> [] /\ w `suffix_of` s /\ forallb isNonSpace w = true /\
  forall w', w' `suffix_of` s -> forallb isNonSpace w' = true ->
             w' `suffix_of` w.
Proof.
  induction s as [|c rest IH]; [discriminate|].
  cbn [lastWord]. destruct (forallb isNonSpace (c :: rest)) eqn:Hall.
  - intros [= <-]. repeat split; auto.
  - intros Hw. destruct (IH Hw) as (Hne & Hsuf & Hns & Hmax).
    repeat split; auto.
    + now apply suffix_cons_r.
    + intros w' Hsuf' Hns'.
      destruct w' as [|x w']; [apply suffix_nil|].
      apply suffix_cons_inv in Hsuf' as [Heq | Hsuf'].
      * rewrite Heq, Hall in Hns'. discriminate.
      * now apply Hmax.
Qed.

Lemma lastWord_length (s w : jsstring) :
  lastWord s = Some w -> 0 < length w <= length s.
Proof.
  intros H. destruct (lastWord_Some _ _ H) as (Hne & Hsuf & _).
  apply suffix_length in Hsuf. destruct w; [congruence|]. simpl in *. lia.
Qed.

(** When the whole input after some point is free of whitespace, the match
    reaches back at least to that point. *)
Lemma lastWord_covers (s t : jsstring) :
  t <> [] -> forallb isNonSpace t = true ->
  exists w, lastWord (s ++ t) = Some w /\ t `suffix_of` w.
Proof.
  intros Hne Hns.
  destruct (lastWord (s ++ t)) as [w|] eqn:Hw.
  - exists w. split; [reflexivity|].
    destruct (lastWord_Some _ _ Hw) as (_ & _ & _ & Hmax).
    apply Hmax; [|exact Hns]. now exists s.
  - exfalso. apply lastWord_None in Hw as [Hnil | (c & Hl & Hc)].
    + apply app_eq_nil in Hnil. tauto.
    + rewrite last_app in Hl.
      destruct (last t) as [c'|] eqn:Hlt.
      * injection Hl as ->.
        rewrite (last_whitespace_not_word _ _ Hlt Hc) in Hns. discriminate.
      * apply last_None in Hlt. contradiction.
Qed.

(** The match on an input with one more code unit at the end. *)
Lemma lastWord_snoc (s : jsstring) (c : char16) :
  lastWord (s ++ [c]) =
  if isWhiteSpace c then None
  else Some (match lastWord s with
             | Some w => w ++ [c]
             | None => [c]
             end).
Proof.
  induction s as [|a rest IH].
  - cbn. unfold isNonSpace. destruct (isWhiteSpace c); reflexivity.
  - change ((a :: rest) ++ [c]) with (a :: (rest ++ [c])).
    cbn [lastWord]. rewrite IH.
    change (a :: (rest ++ [c])) with ((a :: rest) ++ [c]).
    rewrite forallb_app. cbn [forallb]. unfold isNonSpace at 3.
    destruct (isWhiteSpace c); cbn [negb]; rewrite ?andb_true_r.
    + rewrite andb_false_r. reflexivity.
    + cbn [lastWord forallb].
      destruct (isNonSpace a && forallb isNonSpace rest); reflexivity.
Qed.

(** The pattern computes the word extraction of the specification. *)
Lemma lastWord_longest_suffix (s : jsstring) :
  lastWord s = match longestNonSpaceSuffix s with
               | [] => None
               | w => Some w
               end.
Proof.
  unfold longestNonSpaceSuffix.
  induction s as [|c s IH] using rev_ind; [reflexivity|].
  rewrite lastWord_snoc, rev_unit. cbn [leadingRun].
  destruct (isWhiteSpace c); [reflexivity|].
  cbn [rev]. rewrite IH.
  destruct (rev (leadingRun (rev s))); reflexivity.
Qed.

(** ** Text of a block *)

Lemma textBetween_render (b : textblock) (from to : nat) :
  textBetween (Some [ufffc]) b from to =
  map renderUnit (take (to - from) (drop from b)).
Proof.
  unfold textBetween. induction (take (to - from) (drop from b)) as [|x l IH].
  - reflexivity.
  - simpl. rewrite IH. destruct x; reflexivity.
Qed.

Lemma textBetween_prefix (b : textblock) (o : nat) :
  textBetween (Some [ufffc]) b 0 o =
  take o (textBetween (Some [ufffc]) b 0 (length b)).
Proof.
  rewrite !textBetween_render, !Nat.sub_0_r, !drop_0, firstn_all.
  symmetry. apply firstn_map.
Qed.

Lemma textBetween_length (b : textblock) (o : nat) :
  o <= length b -> length (textBetween (Some [ufffc]) b 0 o) = o.
Proof.
  intros H. rewrite textBetween_render, Nat.sub_0_r, drop_0.
  rewrite length_map, length_take. lia.
Qed.

(** ** Positions *)

(** The document [<p>ab</p><p>c</p>] has the positions 0 to 7. *)
Example resolve_positions :
  let d := [[Chr 97; Chr 98]; [Chr 99]]%N in
  resolve d 0 = Some (mkResolvedPos TheDoc 0)
  /\ resolve d 1 = Some (mkResolvedPos (Block 0 [Chr 97; Chr 98]%N) 0)
  /\ resolve d 3 = Some (mkResolvedPos (Block 0 [Chr 97; Chr 98]%N) 2)
  /\ resolve d 4 = Some (mkResolvedPos TheDoc 4)
  /\ resolve d 6 = Some (mkResolvedPos (Block 1 [Chr 99]%N) 1)
  /\ resolve d 7 = Some (mkResolvedPos TheDoc 7)
  /\ resolve d 8 = None
  /\ docTextBetween None d 2 6 = [98; 99]%N.
Proof. repeat split; reflexivity. Qed.

Lemma contentStart_cons (b : textblock) (d : document) (i : nat) :
  contentStart (b :: d) (S i) = nodeSize b + contentStart d i.
Proof. unfold contentStart. simpl. lia. Qed.

Lemma resolveFrom_block (d : document) :
  forall (index consumed pos k : nat) (b : textblock) (o : nat),
    resolveFrom index consumed d pos = Some (mkResolvedPos (Block k b) o) <->
    exists j, k = index + j /\ d !! j = Some b /\ o <= length b /\
              pos = contentStart d j + o.
Proof.
  induction d as [|b0 rest IH]; intros index consumed pos k b o.
  - simpl. split.
    + destruct (pos =? 0); discriminate.
    + intros (j & _ & Hl & _). discriminate.
  - cbn [resolveFrom].
    destruct (pos =? 0) eqn:H0.
    { apply Nat.eqb_eq in H0. split; [discriminate|].
      intros (j & _ & _ & _ & Hp). unfold contentStart in Hp. lia. }
    apply Nat.eqb_neq in H0.
    destruct (pos <=? S (length b0)) eqn:H1.
    + apply Nat.leb_le in H1. split.
      * intros [= <- <- <-]. exists 0. unfold contentStart. simpl.
        repeat split; lia.
      * intros (j & -> & Hl & Ho & Hp). destruct j as [|j].
        -- simpl in Hl. injection Hl as <-.
           unfold contentStart in Hp. simpl in Hp.
           rewrite Nat.add_0_r. do 3 f_equal. lia.
        -- rewrite contentStart_cons in Hp. unfold contentStart, nodeSize in Hp.
           lia.
    + apply Nat.leb_gt in H1. rewrite IH. split.
      * intros (j & -> & Hl & Ho & Hp). exists (S j).
        rewrite contentStart_cons. unfold contentStart, nodeSize in *.
        repeat split; auto; lia.
      * intros (j & -> & Hl & Ho & Hp). destruct j as [|j].
        -- unfold contentStart in Hp. simpl in Hp, Hl. injection Hl as <-. lia.
        -- exists j. rewrite contentStart_cons in Hp. simpl in Hl.
           repeat split; auto; lia.
Qed.

(** A position resolves into block [i] at offset [o] exactly when it is the
    start of the content of that block plus [o]. *)
Lemma resolve_block (d : document) (pos i : nat) (b : textblock) (o : nat) :
  resolve d pos = Some (mkResolvedPos (Block i b) o) <->
  d !! i = Some b /\ o <= length b /\ pos = contentStart d i + o.
Proof.
  unfold resolve. rewrite resolveFrom_block. split.
  - intros (j & -> & H). exact H.
  - intros H. exists i. split; [reflexivity | exact H].
Qed.

Lemma contentStart_insert (d : document) (i : nat) (b : textblock) :
  contentStart (<[i := b]> d) i = contentStart d i.
Proof. unfold contentStart. rewrite take_insert_ge by lia. reflexivity. Qed.

(** A replacement inside one block. *)
Lemma replaceRange_block (d : document) (i : nat) (b : textblock)
    (o1 o2 : nat) (text : jsstring) :
  d !! i = Some b -> o1 <= o2 <= length b ->
  replaceRange d (contentStart d i + o1) (contentStart d i + o2) text =
  Some (<[i := take o1 b ++ map Chr text ++ drop o2 b]> d).
Proof.
  intros Hl Ho. unfold replaceRange.
  assert (H1 : resolve d (contentStart d i + o1)
               = Some (mkResolvedPos (Block i b) o1)).
  { apply resolve_block. repeat split; auto; lia. }
  assert (H2 : resolve d (contentStart d i + o2)
               = Some (mkResolvedPos (Block i b) o2)).
  { apply resolve_block. repeat split; auto; lia. }
  rewrite H1, H2, Nat.eqb_refl. simpl.
  destruct (o1 <=? o2) eqn:Hle; [reflexivity|].
  apply Nat.leb_gt in Hle. lia.
Qed.

(** Deleting the [n] items before offset [o] of a block and inserting [s] in
    their place, as the two steps of one transaction. *)
Lemma delete_insert_block (d : document) (pos i : nat) (b : textblock)
    (o n : nat) (s : jsstring) :
  resolve d pos = Some (mkResolvedPos (Block i b) o) -> n <= o ->
  applyTransaction d
    (tr_insertText (tr_delete newTr (pos - n) pos) s (pos - n)) =
  Some (<[i := take (o - n) b ++ map Chr s ++ drop o b]> d).
Proof.
  intros Hr Hn. apply resolve_block in Hr as (Hl & Ho & ->).
  replace (contentStart d i + o - n) with (contentStart d i + (o - n)) by lia.
  unfold tr_insertText, tr_delete, newTr. cbn [app applyTransaction applyStep].
  rewrite (replaceRange_block d i b (o - n) o []) by (auto; lia).
  set (b1 := take (o - n) b ++ map Chr [] ++ drop o b).
  set (d1 := <[i := b1]> d).
  assert (Hi : i < length d) by (eapply lookup_lt_Some; eauto).
  assert (Hl1 : d1 !! i = Some b1) by (apply list_lookup_insert_eq; exact Hi).
  assert (Hlen : o - n <= length b1).
  { unfold b1. rewrite length_app, length_take. lia. }
  rewrite <- (contentStart_insert d i b1). fold d1.
  replace (contentStart d1 i + (o - n)) with (contentStart d1 i + (o - n)) by lia.
  rewrite (replaceRange_block d1 i b1 (o - n) (o - n) s) by (auto; lia).
  unfold d1. rewrite list_insert_insert_eq. do 2 f_equal.
  unfold b1. simpl.
  rewrite take_app_le by (rewrite length_take; lia).
  rewrite take_take, Nat.min_id.
  rewrite drop_app_ge by (rewrite length_take; lia).
  rewrite length_take. replace (o - n - (o - n) `min` length b) with 0 by lia.
  reflexivity.
Qed.

(** ** Running the handlers *)

Lemma includes_elem_of (xs : list jsstring) (x : jsstring) :
  includes xs x = true <-> x ∈ xs.
Proof.
  unfold includes. rewrite existsb_exists. split.
  - intros (y & Hin & Heq). apply bool_decide_eq_true in Heq. subst y.
    now apply list_elem_of_In.
  - intros Hin. exists x. split.
    + now apply list_elem_of_In.
    + now apply bool_decide_eq_true.
Qed.

Lemma includes_not_elem_of (xs : list jsstring) (x : jsstring) :
  includes xs x = false <-> x ∉ xs.
Proof.
  rewrite <- includes_elem_of. destruct (includes xs x); split; congruence.
Qed.

Ltac unfold_monad :=
  unfold mbind, M_bind, mret, M_ret, getStorage, setEnabled, dispatch,
    callOnSuggestionsUpdate, emit, orThrow, throw, notifications.

Ltac resolved H :=
  rewrite H; unfold mret, M_ret; cbv beta iota.

Ltac world w :=
  destruct w as [[? ?] ?]; cbn [storage trace engine enabled] in *; subst.

(** The word before a position inside a block is no longer than the offset
    of the position in the block. *)
Lemma word_in_block (d : document) (pos i : nat) (b : textblock) (o : nat)
    (word : jsstring) :
  resolve d pos = Some (mkResolvedPos (Block i b) o) ->
  lastWord (textBetween (Some [ufffc]) b 0 o) = Some word ->
  length word <= o.
Proof.
  intros Hr Hw. apply resolve_block in Hr as (_ & Ho & _).
  apply lastWord_length in Hw. rewrite textBetween_length in Hw by exact Ho.
  lia.
Qed.

Section Claims.

Context {LanguageConfig : Type}.
Variable options : @Options LanguageConfig.

(** C1.  With transliteration enabled and an engine attached, when the
    inserted text is one of the trigger characters and the word before the
    insertion point exists, has no target-script characters and
    transliterates to something else, [handleTextInput] dispatches one
    transaction that deletes the range of the word and inserts the
    transliterated text followed by the inserted text, then calls the
    callback (when one is configured) with the empty list and no position,
    and returns true.  For a position inside a text block the transaction
    turns the block into: what was before the word, the transliterated word,
    the trigger text once, what was after the insertion point. *)
Theorem handleTextInput_commits_word (view : EditorView) (from to : nat)
    (text : jsstring) (w0 : World) (eng : TransliterationEngine)
    (rp : ResolvedPos) (word : jsstring) :
  enabled (storage w0) = true ->
  engine (storage w0) = Some eng ->
  text ∈ triggerChars options ->
  resolve (doc (state view)) from = Some rp ->
  lastWord (parentTextBefore (Some [ufffc]) (doc (state view)) rp) = Some word ->
  containsTargetScript eng word = false ->
  transliterate eng word <> word ->
  let wordStart := from - length word in
  let tr := [StepDelete wordStart from;
             StepInsertText (transliterate eng word ++ text) wordStart] in
  handleTextInput options view from to text w0 =
    Some (true,
          mkWorld (storage w0)
            (trace w0 ++ Dispatch tr
               :: notifications (onSuggestionsUpdate options)))
  /\ forall i b o, rp = mkResolvedPos (Block i b) o ->
       length word <= o /\
       applyTransaction (doc (state view)) tr =
         Some (<[i := take (o - length word) b
                       ++ map Chr (transliterate eng word)
                       ++ map Chr text
                       ++ drop o b]> (doc (state view))).
Proof.
  intros Hen Heng Htrig Hres Hword Hscript Hdiff wordStart tr. split.
  - world w0. unfold handleTextInput. unfold_monad.
    cbn [storage trace engine enabled].
    apply includes_elem_of in Htrig. rewrite Htrig. resolved Hres.
    rewrite Hword, Hscript.
    rewrite bool_decide_eq_false_2 by exact Hdiff.
    destruct (onSuggestionsUpdate options); cbn [storage trace];
      rewrite <- ?app_assoc; reflexivity.
  - intros i b o ->. cbn in Hword.
    assert (Hlen : length word <= o) by (eapply word_in_block; eauto).
    split; [exact Hlen|].
    subst tr wordStart.
    pose proof (delete_insert_block _ _ _ _ _ (length word)
                  (transliterate eng word ++ text) Hres Hlen) as Happ.
    unfold tr_insertText, tr_delete, newTr in Happ. cbn [app] in Happ.
    rewrite Happ, map_app, <- app_assoc. reflexivity.
Qed.

(** C8.  [handleTextInput] returns false and leaves the world as it was (no
    transaction, no callback) when transliteration is disabled, when no
    engine is attached, when the inserted text is not a trigger character,
    when no word precedes the insertion point, when the word has
    target-script characters, and when the word transliterates to itself. *)
Theorem handleTextInput_declines (view : EditorView) (from to : nat)
    (text : jsstring) (w0 : World) :
  enabled (storage w0) = false
  \/ engine (storage w0) = None
  \/ text ∉ triggerChars options
  \/ (exists rp, resolve (doc (state view)) from = Some rp /\
        (lastWord (parentTextBefore (Some [ufffc]) (doc (state view)) rp) = None
         \/ exists eng word,
              engine (storage w0) = Some eng /\
              lastWord (parentTextBefore (Some [ufffc]) (doc (state view)) rp)
                = Some word /\
              (containsTargetScript eng word = true
               \/ transliterate eng word = word))) ->
  handleTextInput options view from to text w0 = Some (false, w0).
Proof.
  intros H. unfold handleTextInput. unfold_monad.
  destruct w0 as [[e en] t0]. cbn [storage trace engine enabled] in *.
  destruct en; [|reflexivity].
  destruct e as [eng0|]; [|reflexivity].
  destruct H as [H | [H | [H | (rp & Hres & H)]]]; try discriminate.
  - apply includes_not_elem_of in H. rewrite H. reflexivity.
  - destruct (includes (triggerChars options) text); [|reflexivity].
    resolved Hres.
    destruct H as [Hnone | (eng & word & [= <-] & Hword & H)].
    + rewrite Hnone. reflexivity.
    + rewrite Hword. destruct H as [Hs | Heq].
      * rewrite Hs. reflexivity.
      * destruct (containsTargetScript eng0 word); [reflexivity|].
        rewrite bool_decide_eq_true_2 by exact Heq. reflexivity.
Qed.

(** C2.  On Enter, with transliteration enabled and an engine attached:
    when [getSuggestions(word, 1)] is not empty and the word is at least
    [minCharsForSuggestion] long, [handleKeyDown] does nothing; otherwise,
    when the word has no target-script characters and transliterates to
    something else, it dispatches one transaction that puts the
    transliterated text in place of the word, with nothing appended; in
    every case it returns false. *)
Theorem handleKeyDown_enter (view : EditorView) (event : KeyboardEvent)
    (w0 : World) (eng : TransliterationEngine) (rp : ResolvedPos) :
  let d := doc (state view) in
  let from := sel_from (selection (state view)) in
  key event = js "Enter" ->
  enabled (storage w0) = true ->
  engine (storage w0) = Some eng ->
  resolve d from = Some rp ->
  (exists w1, handleKeyDown options view event w0 = Some (false, w1))
  /\ (lastWord (parentTextBefore (Some [ufffc]) d rp) = None ->
      handleKeyDown options view event w0 = Some (false, w0))
  /\ forall word,
       lastWord (parentTextBefore (Some [ufffc]) d rp) = Some word ->
       let popup :=
         (0 <? length (getSuggestions eng word 1%float))
         && PrimFloat.leb (minCharsForSuggestion options) (length_number word) in
       (popup = true ->
        handleKeyDown options view event w0 = Some (false, w0))
       /\ (popup = false ->
           containsTargetScript eng word = false ->
           transliterate eng word <> word ->
           let wordStart := from - length word in
           let tr := [StepDelete wordStart from;
                      StepInsertText (transliterate eng word) wordStart] in
           handleKeyDown options view event w0 =
             Some (false,
                   mkWorld (storage w0)
                     (trace w0 ++ Dispatch tr
                        :: notifications (onSuggestionsUpdate options)))
           /\ forall i b o, rp = mkResolvedPos (Block i b) o ->
                applyTransaction d tr =
                  Some (<[i := take (o - length word) b
                                ++ map Chr (transliterate eng word)
                                ++ drop o b]> d)).
Proof.
  intros d from Hkey Hen Heng Hres. subst d from.
  unfold handleKeyDown. unfold_monad. world w0.
  rewrite Hkey. rewrite bool_decide_eq_true_2 by reflexivity.
  cbn [andb storage trace engine enabled]. resolved Hres.
  split; [|split].
  - destruct (lastWord _) as [word|]; [|eauto].
    destruct (_ && _); [eauto|].
    destruct (negb (containsTargetScript eng word)); [|eauto].
    destruct (negb (bool_decide _)); [|eauto].
    destruct (onSuggestionsUpdate options); eauto.
  - intros ->. reflexivity.
  - intros word Hword. rewrite Hword. split.
    + intros ->. reflexivity.
    + intros -> Hscript Hdiff. rewrite Hscript.
      rewrite bool_decide_eq_false_2 by exact Hdiff.
      cbn [negb storage trace]. split.
      * destruct (onSuggestionsUpdate options); cbn [storage trace];
          rewrite <- ?app_assoc; reflexivity.
      * intros i b o ->. cbn in Hword.
        assert (Hlen : length word <= o) by (eapply word_in_block; eauto).
        exact (delete_insert_block _ _ _ _ _ (length word)
                 (transliterate eng word) Hres Hlen).
Qed.

(** C3.  With transliteration enabled, an engine attached and a callback
    configured, [update] calls the callback with the empty list and no
    position when there is no current word, when the word is shorter than
    [minCharsForSuggestion], when it has target-script characters and when
    the engine has no suggestion for it; otherwise it calls the callback
    with the suggestions of the engine, each with [tanglish] equal to its
    [input] and [tamil] equal to its [output], and the position whose top is
    the bottom of the cursor plus 4 and whose left is the left of the
    cursor. *)
Theorem update_notifies (view : EditorView) (w0 : World)
    (eng : TransliterationEngine) (rp : ResolvedPos) :
  let d := doc (state view) in
  let from := sel_from (selection (state view)) in
  enabled (storage w0) = true ->
  engine (storage w0) = Some eng ->
  onSuggestionsUpdate options = true ->
  resolve d from = Some rp ->
  let called suggestions position :=
    Some (tt, mkWorld (storage w0)
                (trace w0 ++ [SuggestionsUpdate suggestions position])) in
  (lastWord (parentTextBefore (Some [ufffc]) d rp) = None ->
   update options view w0 = called [] None)
  /\ forall word,
       lastWord (parentTextBefore (Some [ufffc]) d rp) = Some word ->
       let raw := getSuggestions eng word (maxSuggestions options) in
       (PrimFloat.ltb (length_number word) (minCharsForSuggestion options) = true
        \/ containsTargetScript eng word = true
        \/ raw = [] ->
        update options view w0 = called [] None)
       /\ (PrimFloat.ltb (length_number word) (minCharsForSuggestion options)
             = false ->
           containsTargetScript eng word = false ->
           raw <> [] ->
           let coords := coordsAtPos view from in
           update options view w0 =
             called (map withAliases raw)
               (Some {| pos_top := (bottom coords + 4)%float;
                        pos_left := left coords |})
           /\ map ts_input (map withAliases raw) = map input raw
           /\ map ts_output (map withAliases raw) = map output raw
           /\ Forall (fun e => tanglish e = ts_input e /\ tamil e = ts_output e)
                (map withAliases raw)).
Proof.
  intros d from Hen Heng Hcb Hres called. subst d from called.
  unfold update. unfold_monad. world w0. rewrite Hcb.
  cbn [andb storage trace engine enabled]. resolved Hres.
  split.
  - intros ->. reflexivity.
  - intros word Hword. rewrite Hword.
    set (raw := getSuggestions eng word (maxSuggestions options)). split.
    + intros [Hshort | [Hscript | Hnone]].
      * rewrite Hshort. reflexivity.
      * destruct (PrimFloat.ltb _ _); [reflexivity|].
        rewrite Hscript. reflexivity.
      * destruct (PrimFloat.ltb _ _); [reflexivity|].
        destruct (containsTargetScript eng word); [reflexivity|].
        rewrite Hnone. reflexivity.
    + intros Hlong Hscript Hsome. rewrite Hlong, Hscript.
      split; [|split; [|split]].
      * destruct raw as [|s raw']; [congruence|]. reflexivity.
      * rewrite map_map. reflexivity.
      * rewrite map_map. reflexivity.
      * apply Forall_forall. intros e He.
        apply list_elem_of_In, in_map_iff in He as (s & <- & _).
        split; reflexivity.
Qed.

(** A [replaceWith] step over a range inside one block. *)
Lemma replaceWith_block (d : document) (from to i : nat) (b : textblock)
    (o1 o2 : nat) (text : jsstring) :
  resolve d from = Some (mkResolvedPos (Block i b) o1) ->
  resolve d to = Some (mkResolvedPos (Block i b) o2) ->
  from <= to ->
  applyTransaction d (tr_replaceWith newTr from to text) =
  Some (<[i := take o1 b ++ map Chr text ++ drop o2 b]> d).
Proof.
  intros H1 H2 Hle.
  apply resolve_block in H1 as (Hl & Ho1 & ->).
  apply resolve_block in H2 as (_ & Ho2 & ->).
  unfold tr_replaceWith, newTr. cbn [app applyTransaction applyStep].
  rewrite (replaceRange_block d i b o1 o2 text) by (auto; lia).
  reflexivity.
Qed.

(** C6, as the code has it.  [transliterateSelection] returns false and has
    no effect when the selection is empty, when no engine is attached and
    when the selected text transliterates to itself.  Otherwise, in a dry
    run, without a [dispatch] function, it returns true and has no effect;
    and with a [dispatch] function and a transliterated text that is not
    empty it dispatches one transaction that replaces the selection range
    with the transliterated text, and returns true.  Whenever it returns, it
    has not called the suggestion callback and has not changed the
    storage. *)
Theorem transliterateSelection_spec (st : EditorState) (hasDispatch : bool)
    (w0 : World) :
  let from := sel_from (selection st) in
  let to := sel_to (selection st) in
  let selectedText := docTextBetween None (doc st) from to in
  let run := transliterateSelection st hasDispatch w0 in
  (from = to
   \/ engine (storage w0) = None
   \/ (exists eng, engine (storage w0) = Some eng /\
                   transliterate eng selectedText = selectedText) ->
   run = Some (false, w0))
  /\ (forall eng,
        engine (storage w0) = Some eng ->
        from <> to ->
        transliterate eng selectedText <> selectedText ->
        let tr := [StepReplaceWith from to (transliterate eng selectedText)] in
        (hasDispatch = false -> run = Some (true, w0))
        /\ (hasDispatch = true ->
            transliterate eng selectedText <> [] ->
            run = Some (true, mkWorld (storage w0) (trace w0 ++ [Dispatch tr]))
            /\ forall i b o1 o2,
                 resolve (doc st) from = Some (mkResolvedPos (Block i b) o1) ->
                 resolve (doc st) to = Some (mkResolvedPos (Block i b) o2) ->
                 from <= to ->
                 applyTransaction (doc st) tr =
                   Some (<[i := take o1 b
                                 ++ map Chr (transliterate eng selectedText)
                                 ++ drop o2 b]> (doc st))))
  /\ (forall r w1,
        run = Some (r, w1) ->
        storage w1 = storage w0 /\
        exists added, trace w1 = trace w0 ++ added /\
                      existsb isSuggestionsUpdate added = false).
Proof.
  intros from to selectedText run. subst run.
  unfold transliterateSelection. unfold_monad.
  destruct w0 as [[e en] t0]. cbn [storage trace engine enabled].
  fold from to selectedText.
  split; [|split].
  - intros [Heq | [Hnone | (eng & Heng & Hsame)]].
    + destruct e; [|reflexivity].
      apply Nat.eqb_eq in Heq. rewrite Heq. reflexivity.
    + rewrite Hnone. reflexivity.
    + rewrite Heng. destruct (from =? to); [reflexivity|].
      rewrite bool_decide_eq_true_2 by exact Hsame. reflexivity.
  - intros eng -> Hne Hdiff. apply Nat.eqb_neq in Hne. rewrite Hne.
    rewrite bool_decide_eq_false_2 by exact Hdiff. split.
    + intros ->. reflexivity.
    + intros -> Hnonempty. split.
      * destruct (transliterate eng selectedText) eqn:Ht; [congruence|].
        reflexivity.
      * intros i b o1 o2 H1 H2 Hle.
        exact (replaceWith_block _ _ _ _ _ _ _ _ H1 H2 Hle).
  - intros r w1. destruct e as [eng|].
    2:{ intros [= <- <-]. split; [reflexivity|]. exists [].
        rewrite app_nil_r. auto. }
    destruct (from =? to).
    { intros [= <- <-]. split; [reflexivity|]. exists [].
      rewrite app_nil_r. auto. }
    destruct (bool_decide _).
    { intros [= <- <-]. split; [reflexivity|]. exists [].
      rewrite app_nil_r. auto. }
    destruct hasDispatch.
    + destruct (transliterate eng selectedText) as [|c s] eqn:Ht;
        cbn [schema_text]; [discriminate|].
      intros [= <- <-]. split; [reflexivity|].
      eexists. split; [reflexivity|]. auto.
    + intros [= <- <-]. split; [reflexivity|]. exists [].
      rewrite app_nil_r. auto.
Qed.

(** The text-node constructor rejects the empty string: a real run whose
    transliteration is empty throws before anything is dispatched. *)
Lemma transliterateSelection_empty_text_throws (st : EditorState)
    (w0 : World) (eng : TransliterationEngine) :
  let from := sel_from (selection st) in
  let to := sel_to (selection st) in
  let selectedText := docTextBetween None (doc st) from to in
  engine (storage w0) = Some eng ->
  from <> to ->
  selectedText <> [] ->
  transliterate eng selectedText = [] ->
  transliterateSelection st true w0 = None.
Proof.
  intros from to selectedText Heng Hne Hsel Hempty.
  unfold transliterateSelection. unfold_monad. rewrite Heng.
  fold from to selectedText.
  apply Nat.eqb_neq in Hne. rewrite Hne, Hempty.
  rewrite bool_decide_eq_false_2 by congruence. reflexivity.
Qed.

(** C7.  [setTransliteration b] stores [b] in the enabled flag whatever the
    flag was, leaves the engine alone, and when [b] is false and a callback
    is configured calls the callback with the empty list and no position;
    in the other cases it calls nothing. *)
Theorem setTransliteration_sets_flag (b : bool) (w0 : World) :
  exists w1,
    setTransliteration options b w0 = Some (true, w1)
    /\ enabled (storage w1) = b
    /\ engine (storage w1) = engine (storage w0)
    /\ (b = false -> onSuggestionsUpdate options = true ->
        trace w1 = trace w0 ++ [SuggestionsUpdate [] None])
    /\ (b = true \/ onSuggestionsUpdate options = false ->
        trace w1 = trace w0).
Proof.
  unfold setTransliteration. unfold_monad. cbn [storage trace].
  destruct b, (onSuggestionsUpdate options) eqn:Hcb; cbn [negb andb];
    eexists; (split; [reflexivity|]); cbn [storage trace engine enabled];
    repeat split; try reflexivity; try congruence;
    intros [H | H]; congruence.
Qed.

(** C9.  [toggleTransliteration] is [setTransliteration] of the negation of
    the stored flag, and two toggles in a row bring the storage back to what
    it was. *)
Theorem toggleTransliteration_involutive (w0 : World) :
  toggleTransliteration options w0 =
    setTransliteration options (negb (enabled (storage w0))) w0
  /\ exists w1 w2,
       toggleTransliteration options w0 = Some (true, w1)
       /\ toggleTransliteration options w1 = Some (true, w2)
       /\ enabled (storage w1) = negb (enabled (storage w0))
       /\ storage w2 = storage w0.
Proof.
  split; [reflexivity|].
  unfold toggleTransliteration, setTransliteration. unfold_monad.
  destruct w0 as [[e en] t0]. cbn [storage trace engine enabled].
  destruct en, (onSuggestionsUpdate options); cbn [negb andb];
    do 2 eexists; repeat split; reflexivity.
Qed.

(** C10.  [setTransliteration false] with a callback configured calls the
    callback with the empty list and no position on every call, whatever the
    flag was before: two calls in a row notify twice, the second from a
    state that is already disabled.  [setTransliteration] and
    [toggleTransliteration] return true from every state. *)
Theorem setTransliteration_false_notifies_every_call (w0 : World) :
  onSuggestionsUpdate options = true ->
  let off := mkStorage (engine (storage w0)) false in
  let clear := SuggestionsUpdate [] None in
  setTransliteration options false w0 =
    Some (true, mkWorld off (trace w0 ++ [clear]))
  /\ setTransliteration options false (mkWorld off (trace w0 ++ [clear])) =
       Some (true, mkWorld off (trace w0 ++ [clear; clear]))
  /\ (forall b w, exists w1, setTransliteration options b w = Some (true, w1))
  /\ (forall w, exists w1, toggleTransliteration options w = Some (true, w1)).
Proof.
  intros Hcb off clear. subst off clear.
  unfold toggleTransliteration, setTransliteration. unfold_monad.
  rewrite Hcb. cbn [negb andb storage trace engine enabled].
  repeat split.
  - rewrite <- app_assoc. reflexivity.
  - intros b w. destruct b; cbn [negb andb]; eauto.
  - intros w. destruct (negb (enabled (storage w))); cbn [negb andb]; eauto.
Qed.

End Claims.

(** ** Word extraction on a block *)

(** C4.  For the text [T] of a block and an offset [o], the text the handlers
    match against is [T[0:o]]; the match fails exactly when that text is
    empty or ends in a whitespace character, and a match is the longest
    suffix of it without whitespace: not empty, a suffix, free of
    whitespace, and containing every suffix that is free of whitespace. *)
Theorem word_extraction (b : textblock) (o : nat) :
  let T := textBetween (Some [ufffc]) b 0 (length b) in
  let before := textBetween (Some [ufffc]) b 0 o in
  before = take o T
  /\ lastWord before = spec_wordExtraction T o
  /\ (lastWord before = None <->
      before = [] \/ exists c, last before = Some c /\ isWhiteSpace c = true)
  /\ forall w, lastWord before = Some w ->
       w <> [] /\ w `suffix_of` before /\ forallb isNonSpace w = true /\
       forall w', w' `suffix_of` before -> forallb isNonSpace w' = true ->
                  w' `suffix_of` w.
Proof.
  intros T before. split; [apply textBetween_prefix|]. split.
  - unfold spec_wordExtraction, before, T.
    rewrite <- textBetween_prefix. apply lastWord_longest_suffix.
  - split; [apply lastWord_None|]. intros w. apply lastWord_Some.
Qed.

Lemma textBetween_split_at (b : textblock) (i o : nat) (x : inline) :
  b !! i = Some x -> i < o ->
  textBetween (Some [ufffc]) b 0 o =
  textBetween (Some [ufffc]) b 0 i
  ++ renderUnit x :: textBetween (Some [ufffc]) b (S i) o.
Proof.
  intros Hx Hio. rewrite !textBetween_render, !Nat.sub_0_r, !drop_0.
  rewrite <- (take_drop_middle b i x Hx) at 1.
  assert (Hi : i < length b) by (eapply lookup_lt_Some; eauto).
  rewrite take_app, length_take, Nat.min_l by lia.
  rewrite take_take, Nat.min_r by lia.
  replace (o - i) with (S (o - S i)) by lia.
  cbn [take]. rewrite map_app. reflexivity.
Qed.

(** C5, as the code has it.  A leaf node renders as U+FFFC, which [\S]
    accepts: it is a character of the word, not a boundary.  When a leaf
    node sits before the offset with no whitespace in between, the word
    exists, reaches back at least to the leaf node, and has U+FFFC at the
    place of the leaf node. *)
Theorem placeholder_is_word_character (b : textblock) (i o : nat)
    (spec : jsstring) :
  b !! i = Some (Leaf spec) ->
  i < o <= length b ->
  forallb isNonSpace (textBetween (Some [ufffc]) b (S i) o) = true ->
  exists w,
    lastWord (textBetween (Some [ufffc]) b 0 o) = Some w
    /\ o - i <= length w
    /\ w !! (length w - (o - i)) = Some ufffc.
Proof.
  intros Hleaf [Hio Hob] Hrun.
  rewrite (textBetween_split_at b i o _ Hleaf Hio). cbn [renderUnit].
  set (pre := textBetween (Some [ufffc]) b 0 i).
  set (t := ufffc :: textBetween (Some [ufffc]) b (S i) o).
  assert (Ht : forallb isNonSpace t = true).
  { unfold t. cbn [forallb]. rewrite Hrun. reflexivity. }
  assert (Hlen : length t = o - i).
  { unfold t. cbn [length]. rewrite textBetween_render, length_map.
    rewrite length_take, length_drop. lia. }
  destruct (lastWord_covers pre t) as (w & Hw & (k & ->)); [discriminate|exact Ht|].
  exists (k ++ t). split; [exact Hw|].
  rewrite length_app, Hlen. split; [lia|].
  replace (length k + (o - i) - (o - i)) with (length k) by lia.
  rewrite lookup_app_r by lia. rewrite Nat.sub_diag. reflexivity.
Qed.

(** The standalone handler gives its entries the same two aliases. *)
Lemma handler_getSuggestions_aliases (eng : TransliterationEngine)
    (query : jsstring) (limit : number) :
  Forall (fun e => tanglish e = ts_input e /\ tamil e = ts_output e)
    (handler_getSuggestions eng query limit)
  /\ length (handler_getSuggestions eng query limit)
     = length (getSuggestions eng query limit).
Proof.
  unfold handler_getSuggestions. split; [|apply length_map].
  apply Forall_forall. intros e He.
  apply list_elem_of_In, in_map_iff in He as (s & <- & _).
  split; reflexivity.
Qed.

(** ** The statements at sample inputs *)

(** Typing a space after "vanakkam": one transaction, one space. *)
Lemma handleTextInput_commits_word_witness :
  handleTextInput sampleOptions (sampleView (js "vanakkam")) 9 9 (js " ")
    sampleWorld =
    Some (true,
          mkWorld (storage sampleWorld)
            [Dispatch [StepDelete 1 9; StepInsertText (vanakkam_ta ++ js " ") 1];
             SuggestionsUpdate [] None])
  /\ applyTransaction [map Chr (js "vanakkam")]
       [StepDelete 1 9; StepInsertText (vanakkam_ta ++ js " ") 1] =
     Some [map Chr vanakkam_ta ++ [Chr 32%N]].
Proof.
  destruct (handleTextInput_commits_word sampleOptions
              (sampleView (js "vanakkam")) 9 9 (js " ") sampleWorld
              sampleEngine (mkResolvedPos (Block 0 (map Chr (js "vanakkam"))) 8)
              (js "vanakkam"))
    as [Hrun Hdoc].
  - reflexivity.
  - reflexivity.
  - apply list_elem_of_In. left. reflexivity.
  - reflexivity.
  - reflexivity.
  - reflexivity.
  - intros H. vm_compute in H. discriminate H.
  - split; [exact Hrun|].
    destruct (Hdoc 0 (map Chr (js "vanakkam")) 8 eq_refl) as [_ Happ].
    exact Happ.
Defined.

(** With transliteration disabled the space is left to the editor. *)
Lemma handleTextInput_declines_witness :
  handleTextInput sampleOptions (sampleView (js "vanakkam")) 9 9 (js " ")
    disabledWorld =
  Some (false, disabledWorld).
Proof.
  apply (handleTextInput_declines sampleOptions (sampleView (js "vanakkam"))
           9 9 (js " ") disabledWorld).
  left. reflexivity.
Defined.

(** Enter after "nandri", for which the sample engine suggests nothing. *)
Lemma handleKeyDown_enter_witness :
  handleKeyDown sampleOptions (sampleView (js "nandri"))
    (mkKeyboardEvent (js "Enter")) sampleWorld =
  Some (false,
        mkWorld (storage sampleWorld)
          [Dispatch [StepDelete 1 7; StepInsertText nandri_ta 1];
           SuggestionsUpdate [] None]).
Proof.
  destruct (handleKeyDown_enter sampleOptions (sampleView (js "nandri"))
              (mkKeyboardEvent (js "Enter")) sampleWorld sampleEngine
              (mkResolvedPos (Block 0 (map Chr (js "nandri"))) 6)
              eq_refl eq_refl eq_refl eq_refl)
    as (_ & _ & Hword).
  destruct (Hword (js "nandri") eq_refl) as [_ Hreplace].
  destruct Hreplace as [Hrun _].
  - reflexivity.
  - reflexivity.
  - intros H. vm_compute in H. discriminate H.
  - exact Hrun.
Defined.

(** The cursor after "van": one suggestion, anchored under the cursor. *)
Lemma update_notifies_witness :
  update sampleOptions (sampleView (js "van")) sampleWorld =
  Some (tt,
        mkWorld (storage sampleWorld)
          [SuggestionsUpdate
             [mkTanglishSuggestion (js "vanakkam") vanakkam_ta
                (js "vanakkam") vanakkam_ta]
             (Some {| pos_top := 40%float; pos_left := 120%float |})]).
Proof.
  destruct (update_notifies sampleOptions (sampleView (js "van")) sampleWorld
              sampleEngine (mkResolvedPos (Block 0 (map Chr (js "van"))) 3)
              eq_refl eq_refl eq_refl eq_refl)
    as [_ Hword].
  destruct (Hword (js "van") eq_refl) as [_ Hshow].
  destruct Hshow as [Hrun _].
  - reflexivity.
  - reflexivity.
  - intros H. vm_compute in H. discriminate H.
  - exact Hrun.
Defined.

Lemma word_extraction_witness :
  lastWord (take 8 (js "hello world")) = Some (js "wo")
  /\ js "wo" `suffix_of` js "hello wo"
  /\ lastWord (take 6 (js "hello world")) = None.
Proof.
  destruct (word_extraction (map Chr (js "hello world")) 8)
    as (Htake & _ & _ & Hword).
  destruct (Hword (js "wo") eq_refl) as (_ & Hsuf & _).
  destruct (word_extraction (map Chr (js "hello world")) 6)
    as (_ & _ & Hnone & _).
  split; [reflexivity|]. split; [exact Hsuf|].
  apply Hnone. right. exists 32%N. split; reflexivity.
Defined.

(** C5: the word before the end of "a", image, "b" has the placeholder in
    it, and typing a space there deletes the image together with the two
    letters. *)
Lemma placeholder_is_boundary_counterexample :
  isWhiteSpace ufffc = false
  /\ lastWord (textBetween (Some [ufffc]) imageBlock 0 3)
     = Some [97; ufffc; 98]%N
  /\ option_map (fun r => (fst r, trace (snd r)))
       (handleTextInput sampleOptions imageView 4 4 (js " ") letterWorld)
     = Some (true,
             [Dispatch [StepDelete 1 4;
                        StepInsertText [0x0B85; 0x0B85; 0x0B85; 32]%N 1];
              SuggestionsUpdate [] None]).
Proof.
  split; [reflexivity|]. split; reflexivity.
Qed.

Lemma placeholder_is_word_character_witness :
  exists w,
    lastWord (textBetween (Some [ufffc]) imageBlock 0 3) = Some w
    /\ 3 - 1 <= length w
    /\ w !! (length w - (3 - 1)) = Some ufffc.
Proof.
  apply (placeholder_is_word_character imageBlock 1 3 []).
  - reflexivity.
  - simpl. lia.
  - reflexivity.
Defined.

(** C6: in a dry run the command reports success and dispatches nothing,
    although the selection is not empty, an engine is attached and the
    selected text transliterates to something else.  And with a [dispatch]
    function, an engine that transliterates the selected text to the empty
    string makes the command throw: it does not return true. *)
Lemma transliterateSelection_dry_run_counterexample :
  engine (storage sampleWorld) = Some sampleEngine
  /\ sel_from (selection selectionState) <> sel_to (selection selectionState)
  /\ transliterate sampleEngine (docTextBetween None (doc selectionState) 1 9)
     <> docTextBetween None (doc selectionState) 1 9
  /\ transliterateSelection selectionState false sampleWorld
     = Some (true, sampleWorld)
  /\ transliterateSelection selectionState true erasingWorld = None.
Proof.
  split; [reflexivity|]. split; [discriminate|].
  split; [|split; reflexivity]. intros H. vm_compute in H. discriminate H.
Qed.

Lemma transliterateSelection_spec_witness :
  transliterateSelection selectionState true sampleWorld =
    Some (true,
          mkWorld (storage sampleWorld)
            [Dispatch [StepReplaceWith 1 9 vanakkam_ta]])
  /\ applyTransaction (doc selectionState) [StepReplaceWith 1 9 vanakkam_ta]
     = Some [map Chr vanakkam_ta].
Proof.
  destruct (transliterateSelection_spec selectionState true sampleWorld)
    as (_ & Hreplace & _).
  destruct (Hreplace sampleEngine eq_refl) as [_ Hreal].
  - discriminate.
  - intros H. vm_compute in H. discriminate H.
  - destruct (Hreal eq_refl) as [Hrun Hdoc].
    + discriminate.
    + split; [exact Hrun|].
      exact (Hdoc 0 (map Chr (js "vanakkam")) 0 8 eq_refl eq_refl
               ltac:(cbn; lia)).
Defined.

Lemma setTransliteration_sets_flag_witness :
  exists w1,
    setTransliteration sampleOptions false sampleWorld = Some (true, w1)
    /\ enabled (storage w1) = false
    /\ trace w1 = [SuggestionsUpdate [] None].
Proof.
  destruct (setTransliteration_sets_flag sampleOptions false sampleWorld)
    as (w1 & Hrun & Hflag & _ & Hclear & _).
  exists w1. split; [exact Hrun|]. split; [exact Hflag|].
  exact (Hclear eq_refl eq_refl).
Defined.

Lemma setTransliteration_false_notifies_every_call_witness :
  setTransliteration sampleOptions false disabledWorld =
  Some (true, mkWorld (storage disabledWorld) [SuggestionsUpdate [] None]).
Proof.
  exact (proj1 (setTransliteration_false_notifies_every_call sampleOptions
                  disabledWorld eq_refl)).
Defined.

(** * Further properties of the extension *)

(** ** What a run of a handler amounts to *)

Section Runs.

Context {LanguageConfig : Type}.
Variable options : @Options LanguageConfig.

(** Past its guard, [handleTextInput] is decided by the word before the
    position. *)
Lemma handleTextInput_run (view : EditorView) (from to : nat)
    (text : jsstring) (w0 : World) (eng : TransliterationEngine)
    (rp : ResolvedPos) :
  enabled (storage w0) = true ->
  engine (storage w0) = Some eng ->
  includes (triggerChars options) text = true ->
  resolve (doc (state view)) from = Some rp ->
  handleTextInput options view from to text w0 =
  match lastWord (parentTextBefore (Some [ufffc]) (doc (state view)) rp) with
  | None => Some (false, w0)
  | Some word =>
      if containsTargetScript eng word
         || bool_decide (transliterate eng word = word)
      then Some (false, w0)
      else Some (true,
                 mkWorld (storage w0)
                   (trace w0
                    ++ Dispatch [StepDelete (from - length word) from;
                                 StepInsertText (transliterate eng word ++ text)
                                   (from - length word)]
                    :: notifications (onSuggestionsUpdate options)))
  end.
Proof.
  intros Hen Heng Htrig Hres. world w0.
  unfold handleTextInput. unfold_monad. cbn [storage trace engine enabled].
  rewrite Htrig. resolved Hres.
  destruct (lastWord _) as [word|]; [|reflexivity].
  destruct (containsTargetScript eng word); [reflexivity|].
  destruct (bool_decide _); [reflexivity|]. cbn [orb].
  destruct (onSuggestionsUpdate options); cbn [storage trace];
    rewrite <- ?app_assoc; reflexivity.
Qed.

Lemma handleTextInput_guard (view : EditorView) (from to : nat)
    (text : jsstring) (w0 : World) :
  enabled (storage w0) = false
  \/ engine (storage w0) = None
  \/ includes (triggerChars options) text = false ->
  handleTextInput options view from to text w0 = Some (false, w0).
Proof.
  intros H. unfold handleTextInput. unfold_monad.
  destruct w0 as [[e en] t0]. cbn [storage trace engine enabled] in *.
  destruct en; [|reflexivity]. destruct e; [|reflexivity].
  destruct H as [H | [H | H]]; try discriminate. rewrite H. reflexivity.
Qed.

(** Past its guard, [handleKeyDown] is decided by the word before the
    cursor. *)
Lemma handleKeyDown_run (view : EditorView) (event : KeyboardEvent)
    (w0 : World) (eng : TransliterationEngine) (rp : ResolvedPos) :
  key event = js "Enter" ->
  enabled (storage w0) = true ->
  engine (storage w0) = Some eng ->
  resolve (doc (state view)) (sel_from (selection (state view))) = Some rp ->
  handleKeyDown options view event w0 =
  match lastWord (parentTextBefore (Some [ufffc]) (doc (state view)) rp) with
  | None => Some (false, w0)
  | Some word =>
      if ((0 <? length (getSuggestions eng word 1%float))
          && PrimFloat.leb (minCharsForSuggestion options) (length_number word))
         || containsTargetScript eng word
         || bool_decide (transliterate eng word = word)
      then Some (false, w0)
      else
        let from := sel_from (selection (state view)) in
        Some (false,
              mkWorld (storage w0)
                (trace w0
                 ++ Dispatch [StepDelete (from - length word) from;
                              StepInsertText (transliterate eng word)
                                (from - length word)]
                 :: notifications (onSuggestionsUpdate options)))
  end.
Proof.
  intros Hkey Hen Heng Hres. world w0.
  unfold handleKeyDown. unfold_monad. rewrite Hkey.
  rewrite bool_decide_eq_true_2 by reflexivity.
  cbn [andb storage trace engine enabled]. resolved Hres.
  destruct (lastWord _) as [word|]; [|reflexivity].
  destruct (_ && _); [reflexivity|]. cbn [orb].
  destruct (containsTargetScript eng word); [reflexivity|].
  destruct (bool_decide _); [reflexivity|]. cbn [orb negb].
  destruct (onSuggestionsUpdate options); cbn [storage trace];
    rewrite <- ?app_assoc; reflexivity.
Qed.

Lemma handleKeyDown_guard (view : EditorView) (event : KeyboardEvent)
    (w0 : World) :
  key event <> js "Enter"
  \/ enabled (storage w0) = false
  \/ engine (storage w0) = None ->
  handleKeyDown options view event w0 = Some (false, w0).
Proof.
  intros H. unfold handleKeyDown. unfold_monad.
  destruct w0 as [[e en] t0]. cbn [storage trace engine enabled] in *.
  destruct (bool_decide (key event = js "Enter")) eqn:Hk;
    [|reflexivity].
  destruct en; [|reflexivity]. destruct e; [|reflexivity].
  apply bool_decide_eq_true in Hk.
  destruct H as [H | [H | H]]; congruence.
Qed.

(** Past its guard, [update] makes one callback call. *)
Lemma update_run (view : EditorView) (w0 : World)
    (eng : TransliterationEngine) (rp : ResolvedPos) :
  enabled (storage w0) = true ->
  engine (storage w0) = Some eng ->
  onSuggestionsUpdate options = true ->
  resolve (doc (state view)) (sel_from (selection (state view))) = Some rp ->
  update options view w0 =
  let call suggestions position :=
    Some (tt, mkWorld (storage w0)
                (trace w0 ++ [SuggestionsUpdate suggestions position])) in
  match lastWord (parentTextBefore (Some [ufffc]) (doc (state view)) rp) with
  | None => call [] None
  | Some word =>
      if PrimFloat.ltb (length_number word) (minCharsForSuggestion options)
         || containsTargetScript eng word
      then call [] None
      else
        match getSuggestions eng word (maxSuggestions options) with
        | [] => call [] None
        | raw =>
            let coords :=
              coordsAtPos view (sel_from (selection (state view))) in
            call (map withAliases raw)
              (Some {| pos_top := (bottom coords + 4)%float;
                       pos_left := left coords |})
        end
  end.
Proof.
  intros Hen Heng Hcb Hres. world w0.
  unfold update. unfold_monad. rewrite Hcb.
  cbn [andb storage trace engine enabled]. resolved Hres.
  destruct (lastWord _) as [word|]; [|reflexivity].
  destruct (PrimFloat.ltb _ _); [reflexivity|].
  destruct (containsTargetScript eng word); [reflexivity|]. cbn [orb].
  destruct (getSuggestions eng word (maxSuggestions options)); reflexivity.
Qed.

Lemma update_guard (view : EditorView) (w0 : World) :
  enabled (storage w0) = false
  \/ engine (storage w0) = None
  \/ onSuggestionsUpdate options = false ->
  update options view w0 = Some (tt, w0).
Proof.
  intros H. unfold update. unfold_monad.
  destruct w0 as [[e en] t0]. cbn [storage trace engine enabled] in *.
  destruct en; [|reflexivity].
  destruct (onSuggestionsUpdate options); cbn [andb];
    [|reflexivity].
  destruct e; [|reflexivity].
  destruct H as [H | [H | H]]; discriminate.
Qed.

End Runs.

(** ** Guards, shapes and invariants *)

(** Case analysis on every test of a run, innermost first. *)
Ltac split_run :=
  repeat (cbv beta iota;
          match goal with
          | |- context [match ?x with _ => _ end] =>
              lazymatch x with
              | context [match _ with _ => _ end] => fail
              | _ => destruct x
              end
          end).

Section Further.

Context {LanguageConfig : Type}.
Variable newEngine : LanguageConfig -> TransliterationEngine.
Variable options : @Options LanguageConfig.

(** X1.  [onCreate] builds the engine from the configured language and
    copies the [enabled] option, whatever it is, into the storage, with no
    effect on the outside.  With the option off, as it is by default, every
    handler is inert afterwards: text input and key presses are left to the
    editor and the notifier is silent, whatever the view and the input. *)
Theorem onCreate_disabled_is_inert (w0 : World) :
  let w1 :=
    mkWorld (mkStorage (Some (newEngine (language options)))
               (opt_enabled options))
      (trace w0) in
  onCreate newEngine options w0 = Some (tt, w1)
  /\ (opt_enabled options = false ->
      (forall view from to text,
         handleTextInput options view from to text w1 = Some (false, w1))
      /\ (forall view event,
            handleKeyDown options view event w1 = Some (false, w1))
      /\ (forall view, update options view w1 = Some (tt, w1))).
Proof.
  intros w1. subst w1. split.
  - unfold onCreate. unfold_monad. unfold setEngine. reflexivity.
  - intros Hoff. rewrite Hoff. split; [|split].
    + intros. apply handleTextInput_guard. left. reflexivity.
    + intros. apply handleKeyDown_guard. right. left. reflexivity.
    + intros. apply update_guard. left. reflexivity.
Qed.

(** X2.  [update] does nothing at all, and cannot throw, whatever the
    selection, when transliteration is disabled, when no engine is attached
    or when no callback is configured. *)
Theorem update_silent_when_inactive (view : EditorView) (w0 : World) :
  enabled (storage w0) = false
  \/ engine (storage w0) = None
  \/ onSuggestionsUpdate options = false ->
  update options view w0 = Some (tt, w0).
Proof. apply update_guard. Qed.

(** X3.  An active [update] (enabled, engine, callback) on a valid selection
    calls the callback exactly once and dispatches nothing.  The call has a
    position exactly when it has suggestions, and it has them only for a
    current word that is not shorter than [minCharsForSuggestion] and has no
    target-script characters; they are then the suggestions of the engine
    for that word, limited by [maxSuggestions]. *)
Theorem update_calls_once (view : EditorView) (w0 : World)
    (eng : TransliterationEngine) (rp : ResolvedPos) :
  enabled (storage w0) = true ->
  engine (storage w0) = Some eng ->
  onSuggestionsUpdate options = true ->
  resolve (doc (state view)) (sel_from (selection (state view))) = Some rp ->
  exists suggestions position,
    update options view w0 =
      Some (tt, mkWorld (storage w0)
                  (trace w0 ++ [SuggestionsUpdate suggestions position]))
    /\ anchored (SuggestionsUpdate suggestions position) = true
    /\ (suggestions <> [] ->
        exists word,
          lastWord (parentTextBefore (Some [ufffc]) (doc (state view)) rp)
            = Some word
          /\ PrimFloat.ltb (length_number word) (minCharsForSuggestion options)
             = false
          /\ containsTargetScript eng word = false
          /\ suggestions =
             map withAliases (getSuggestions eng word (maxSuggestions options))).
Proof.
  intros Hen Heng Hcb Hres.
  rewrite (update_run options view w0 eng rp Hen Heng Hcb Hres). cbv zeta.
  destruct (lastWord _) as [word|] eqn:Hword.
  2:{ exists [], None. repeat split; try reflexivity. congruence. }
  destruct (PrimFloat.ltb _ _) eqn:Hshort; cbn [orb].
  { exists [], None. repeat split; try reflexivity. congruence. }
  destruct (containsTargetScript eng word) eqn:Hscript.
  { exists [], None. repeat split; try reflexivity. congruence. }
  destruct (getSuggestions eng word (maxSuggestions options)) as [|s raw]
    eqn:Hraw.
  { exists [], None. repeat split; try reflexivity. congruence. }
  eexists _, _. split; [reflexivity|]. split; [reflexivity|].
  intros _. exists word. repeat split; auto. rewrite Hraw. reflexivity.
Qed.

(** X4.  [handleKeyDown] returns false at once, with no effect and without
    looking at the document, for every key other than Enter, and for Enter
    when transliteration is disabled or no engine is attached. *)
Theorem handleKeyDown_ignores (view : EditorView) (event : KeyboardEvent)
    (w0 : World) :
  key event <> js "Enter"
  \/ enabled (storage w0) = false
  \/ engine (storage w0) = None ->
  handleKeyDown options view event w0 = Some (false, w0).
Proof. apply handleKeyDown_guard. Qed.

(** X5.  On Enter, a word that already has target-script characters, or that
    transliterates to itself, is left alone: no transaction and no callback
    call, whether or not suggestions look active.  The same holds when no
    word precedes the cursor. *)
Theorem handleKeyDown_keeps_word (view : EditorView) (event : KeyboardEvent)
    (w0 : World) (eng : TransliterationEngine) (rp : ResolvedPos) :
  key event = js "Enter" ->
  enabled (storage w0) = true ->
  engine (storage w0) = Some eng ->
  resolve (doc (state view)) (sel_from (selection (state view))) = Some rp ->
  lastWord (parentTextBefore (Some [ufffc]) (doc (state view)) rp) = None
  \/ (exists word,
        lastWord (parentTextBefore (Some [ufffc]) (doc (state view)) rp)
          = Some word
        /\ (containsTargetScript eng word = true
            \/ transliterate eng word = word)) ->
  handleKeyDown options view event w0 = Some (false, w0).
Proof.
  intros Hkey Hen Heng Hres H.
  rewrite (handleKeyDown_run options view event w0 eng rp Hkey Hen Heng Hres).
  destruct H as [-> | (word & -> & H)]; [reflexivity|].
  destruct (_ && _); [reflexivity|]. cbn [orb].
  destruct H as [-> | Heq]; [reflexivity|].
  rewrite (bool_decide_eq_true_2 _ Heq), orb_true_r. reflexivity.
Qed.

(** X6.  Whatever the key and the state, on a valid selection
    [handleKeyDown] returns false and keeps the storage; it either has no
    effect at all or dispatches exactly one transaction, a delete that ends
    at the cursor followed by an insertion where the delete began, and then
    clears the suggestions when a callback is configured. *)
Theorem handleKeyDown_at_most_one_transaction (view : EditorView)
    (event : KeyboardEvent) (w0 : World) :
  let from := sel_from (selection (state view)) in
  is_Some (resolve (doc (state view)) from) ->
  exists w1,
    handleKeyDown options view event w0 = Some (false, w1)
    /\ storage w1 = storage w0
    /\ (w1 = w0
        \/ exists wordStart text,
             trace w1 =
               trace w0
               ++ Dispatch [StepDelete wordStart from;
                            StepInsertText text wordStart]
               :: notifications (onSuggestionsUpdate options)).
Proof.
  intros from [rp Hres]. subst from.
  destruct (decide (key event = js "Enter")) as [Hkey|Hkey].
  2:{ exists w0. rewrite handleKeyDown_guard by auto. auto. }
  destruct (enabled (storage w0)) eqn:Hen.
  2:{ exists w0. rewrite handleKeyDown_guard by auto. auto. }
  destruct (engine (storage w0)) as [eng|] eqn:Heng.
  2:{ exists w0. rewrite handleKeyDown_guard by auto. auto. }
  rewrite (handleKeyDown_run options view event w0 eng rp Hkey Hen Heng Hres).
  destruct (lastWord _) as [word|]; [|exists w0; auto].
  destruct (_ || _); [exists w0; auto|].
  cbv zeta. eexists. split; [reflexivity|]. split; [reflexivity|].
  right. eexists _, _. reflexivity.
Qed.

(** X7.  On a valid position [handleTextInput] keeps the storage, and it
    returns true exactly when it has dispatched: a false run has no effect
    at all, and a true run has dispatched one transaction, a delete that
    ends at the position followed by an insertion, where the delete began,
    of a text that ends with the typed text, which is then a trigger
    character. *)
Theorem handleTextInput_true_iff_dispatched (view : EditorView)
    (from to : nat) (text : jsstring) (w0 : World) :
  is_Some (resolve (doc (state view)) from) ->
  exists r w1,
    handleTextInput options view from to text w0 = Some (r, w1)
    /\ storage w1 = storage w0
    /\ (r = false -> w1 = w0)
    /\ (r = true ->
        text ∈ triggerChars options
        /\ exists wordStart transliterated,
             trace w1 =
               trace w0
               ++ Dispatch [StepDelete wordStart from;
                            StepInsertText (transliterated ++ text) wordStart]
               :: notifications (onSuggestionsUpdate options)).
Proof.
  intros [rp Hres].
  destruct (includes (triggerChars options) text) eqn:Htrig.
  2:{ exists false, w0. rewrite handleTextInput_guard by auto.
      repeat split; auto; discriminate. }
  destruct (enabled (storage w0)) eqn:Hen.
  2:{ exists false, w0. rewrite handleTextInput_guard by auto.
      repeat split; auto; discriminate. }
  destruct (engine (storage w0)) as [eng|] eqn:Heng.
  2:{ exists false, w0. rewrite handleTextInput_guard by auto.
      repeat split; auto; discriminate. }
  rewrite (handleTextInput_run options view from to text w0 eng rp
             Hen Heng Htrig Hres).
  destruct (lastWord _) as [word|].
  2:{ exists false, w0. repeat split; auto; discriminate. }
  destruct (_ || _).
  { exists false, w0. repeat split; auto; discriminate. }
  eexists true, _. split; [reflexivity|]. split; [reflexivity|].
  split; [discriminate|]. intros _. split.
  - now apply includes_elem_of.
  - eexists _, _. reflexivity.
Qed.

(** X8.  Inside a text block the handlers' [wordStart = from - word.length]
    is a position of the same block, at the offset where the word begins,
    and the items between [wordStart] and [from] are exactly the ones that
    render as the word: [word.length] counts document positions because a
    leaf node is rendered as one code unit.  The deleted range never reaches
    the boundary of the block. *)
Theorem word_range_in_block (d : document) (from i : nat) (b : textblock)
    (o : nat) (word : jsstring) :
  resolve d from = Some (mkResolvedPos (Block i b) o) ->
  lastWord (parentTextBefore (Some [ufffc]) d (mkResolvedPos (Block i b) o))
    = Some word ->
  0 < length word <= o
  /\ resolve d (from - length word)
     = Some (mkResolvedPos (Block i b) (o - length word))
  /\ textBetween (Some [ufffc]) b (o - length word) o = word.
Proof.
  intros Hres Hword. cbn [parentTextBefore parent parentOffset] in Hword.
  pose proof (lastWord_length _ _ Hword) as Hlen.
  destruct (lastWord_Some _ _ Hword) as (_ & (k & Hk) & _).
  apply resolve_block in Hres as (Hl & Ho & ->).
  rewrite textBetween_length in Hlen by exact Ho.
  split; [exact Hlen|]. split.
  - apply resolve_block. repeat split; auto; lia.
  - assert (Hklen : length k = o - length word).
    { apply (f_equal length) in Hk. rewrite length_app in Hk.
      rewrite textBetween_length in Hk by exact Ho. lia. }
    rewrite textBetween_render in *. rewrite Nat.sub_0_r, drop_0 in Hk.
    replace (o - (o - length word)) with (length word) by lia.
    rewrite (take_drop_commute b (length word) (o - length word)).
    replace (o - length word + length word) with o by lia.
    fold (drop (o - length word) (take o b)).
    rewrite <- skipn_map, Hk, <- Hklen. apply drop_app_length.
Qed.

(** X9.  Enter and a trigger character agree on the word: whenever Enter
    has an effect in a state, typing a trigger character at the cursor in
    that state is handled (returns true) with the same delete and the same
    transliterated text, followed by the typed text. *)
Theorem enter_replaces_what_trigger_replaces (view : EditorView)
    (event : KeyboardEvent) (to : nat) (text : jsstring) (w0 w1 : World) :
  let from := sel_from (selection (state view)) in
  text ∈ triggerChars options ->
  handleKeyDown options view event w0 = Some (false, w1) ->
  w1 <> w0 ->
  exists wordStart transliterated,
    trace w1 =
      trace w0
      ++ Dispatch [StepDelete wordStart from;
                   StepInsertText transliterated wordStart]
      :: notifications (onSuggestionsUpdate options)
    /\ handleTextInput options view from to text w0 =
       Some (true,
             mkWorld (storage w0)
               (trace w0
                ++ Dispatch [StepDelete wordStart from;
                             StepInsertText (transliterated ++ text) wordStart]
                :: notifications (onSuggestionsUpdate options))).
Proof.
  intros from Htrig Hrun Hne. subst from.
  apply includes_elem_of in Htrig.
  destruct (decide (key event = js "Enter")) as [Hkey|Hkey].
  2:{ rewrite handleKeyDown_guard in Hrun by auto. congruence. }
  destruct (enabled (storage w0)) eqn:Hen.
  2:{ rewrite handleKeyDown_guard in Hrun by auto. congruence. }
  destruct (engine (storage w0)) as [eng|] eqn:Heng.
  2:{ rewrite handleKeyDown_guard in Hrun by auto. congruence. }
  destruct (resolve (doc (state view)) (sel_from (selection (state view))))
    as [rp|] eqn:Hres.
  2:{ exfalso. revert Hrun. unfold handleKeyDown. unfold_monad.
      destruct w0 as [[e en] t0]. cbn [storage trace engine enabled] in *.
      subst e en. rewrite (bool_decide_eq_true_2 _ Hkey). cbn [andb].
      rewrite Hres. discriminate. }
  rewrite (handleKeyDown_run options view event w0 eng rp Hkey Hen Heng Hres)
    in Hrun.
  rewrite (handleTextInput_run options view _ to text w0 eng rp
             Hen Heng Htrig Hres).
  destruct (lastWord _) as [word|]; [|congruence].
  destruct (_ && _); cbn [orb] in Hrun; [congruence|].
  destruct (containsTargetScript eng word || _); [congruence|].
  cbv zeta in Hrun. injection Hrun as <-.
  eexists _, _. split; reflexivity.
Qed.

(** X10.  After a commit whose inserted text ends in whitespace (as with the
    space trigger), the position right after the inserted text has no
    current word in the resulting document.  With the cursor there, typing
    again is left to the editor, Enter does nothing, and an active notifier
    clears the suggestions. *)
Theorem second_trigger_after_commit (d : document) (from i : nat)
    (b : textblock) (o : nat) (word inserted : jsstring) (c : char16)
    (view' : EditorView) :
  resolve d from = Some (mkResolvedPos (Block i b) o) ->
  lastWord (textBetween (Some [ufffc]) b 0 o) = Some word ->
  last inserted = Some c ->
  isWhiteSpace c = true ->
  let wordStart := from - length word in
  let after := wordStart + length inserted in
  applyTransaction d [StepDelete wordStart from;
                      StepInsertText inserted wordStart]
    = Some (doc (state view')) ->
  sel_from (selection (state view')) = after ->
  (exists rp,
     resolve (doc (state view')) after = Some rp
     /\ lastWord (parentTextBefore (Some [ufffc]) (doc (state view')) rp)
        = None)
  /\ (forall to text w,
        handleTextInput options view' after to text w = Some (false, w))
  /\ (forall event w, handleKeyDown options view' event w = Some (false, w))
  /\ (forall w,
        enabled (storage w) = true ->
        is_Some (engine (storage w)) ->
        onSuggestionsUpdate options = true ->
        update options view' w =
          Some (tt, mkWorld (storage w)
                      (trace w ++ [SuggestionsUpdate [] None]))).
Proof.
  intros Hres Hword Hlast Hws wordStart after Happ Hsel.
  assert (Hn : length word <= o) by (eapply word_in_block; eauto).
  pose proof (delete_insert_block d from i b o (length word) inserted
                Hres Hn) as Hdoc.
  unfold tr_insertText, tr_delete, newTr in Hdoc. cbn [app] in Hdoc.
  fold wordStart in Hdoc. rewrite Hdoc in Happ. injection Happ as Hd'.
  apply resolve_block in Hres as (Hl & Ho & Hfrom).
  set (b' := take (o - length word) b ++ map Chr inserted ++ drop o b) in *.
  set (o' := o - length word + length inserted).
  assert (Hi : i < length d) by (eapply lookup_lt_Some; eauto).
  assert (Hres' : resolve (doc (state view')) after
                  = Some (mkResolvedPos (Block i b') o')).
  { rewrite <- Hd'. apply resolve_block. repeat split.
    - apply list_lookup_insert_eq. exact Hi.
    - unfold b', o'. rewrite !length_app, length_take, length_map. lia.
    - rewrite contentStart_insert. unfold after, wordStart, o'. lia. }
  assert (Hnone : lastWord (parentTextBefore (Some [ufffc])
                              (doc (state view'))
                              (mkResolvedPos (Block i b') o')) = None).
  { cbn [parentTextBefore parent parentOffset].
    apply lastWord_None. right. exists c. split; [|exact Hws].
    rewrite textBetween_render, Nat.sub_0_r, drop_0. unfold b', o'.
    rewrite app_assoc, take_app_length'
      by (rewrite length_app, length_take, length_map; lia).
    rewrite map_app, map_map. cbn [renderUnit]. rewrite map_id.
    rewrite last_app, Hlast. reflexivity. }
  split; [eauto|]. split; [|split].
  - intros to text w.
    destruct (includes (triggerChars options) text) eqn:Htrig;
      [|apply handleTextInput_guard; auto].
    destruct (enabled (storage w)) eqn:Hen;
      [|apply handleTextInput_guard; auto].
    destruct (engine (storage w)) as [eng|] eqn:Heng;
      [|apply handleTextInput_guard; auto].
    rewrite (handleTextInput_run options view' after to text w eng _
               Hen Heng Htrig Hres'), Hnone.
    reflexivity.
  - intros event w.
    destruct (decide (key event = js "Enter")) as [Hkey|Hkey];
      [|apply handleKeyDown_guard; auto].
    destruct (enabled (storage w)) eqn:Hen;
      [|apply handleKeyDown_guard; auto].
    destruct (engine (storage w)) as [eng|] eqn:Heng;
      [|apply handleKeyDown_guard; auto].
    rewrite <- Hsel in Hres'.
    rewrite (handleKeyDown_run options view' event w eng _
               Hkey Hen Heng Hres'), Hnone.
    reflexivity.
  - intros w Hen [eng Heng] Hcb. rewrite <- Hsel in Hres'.
    rewrite (update_run options view' w eng _ Hen Heng Hcb Hres'), Hnone.
    reflexivity.
Qed.

Ltac unfold_entry :=
  unfold toggleTransliteration;
  unfold setTransliteration, transliterateSelection, handleTextInput,
    handleKeyDown, update;
  unfold_monad; unfold mret, M_ret.

(** X11.  The engine handle is never replaced once it is attached: no
    command and no handler changes [storage.engine].  The two toggle
    commands write the enabled flag and nothing else; the selection command,
    the two input handlers and the notifier do not write the storage at
    all. *)
Theorem storage_written_only_by_toggle_commands (w0 w1 : World) :
  (forall b r,
     setTransliteration options b w0 = Some (r, w1) ->
     engine (storage w1) = engine (storage w0))
  /\ (forall r,
        toggleTransliteration options w0 = Some (r, w1) ->
        engine (storage w1) = engine (storage w0))
  /\ (forall st hasDispatch r,
        transliterateSelection st hasDispatch w0 = Some (r, w1) ->
        storage w1 = storage w0)
  /\ (forall view from to text r,
        handleTextInput options view from to text w0 = Some (r, w1) ->
        storage w1 = storage w0)
  /\ (forall view event r,
        handleKeyDown options view event w0 = Some (r, w1) ->
        storage w1 = storage w0)
  /\ (forall view r,
        update options view w0 = Some (r, w1) ->
        storage w1 = storage w0).
Proof.
  destruct w0 as [[e en] t0].
  repeat split; intros; revert H; unfold_entry;
    cbn [storage trace engine enabled]; split_run;
    intros [= <- <-] || discriminate; reflexivity.
Qed.

(** X12.  Only the notifier ever shows suggestions: every callback call made
    by a command or by an input handler is the clearing call with the empty
    list and no position. *)
Theorem only_update_shows_suggestions (w0 w1 : World) :
  let clears added :=
    trace w1 = trace w0 ++ added
    /\ forallb (fun e => negb (isSuggestionsUpdate e) || isClear e) added
       = true in
  (forall b r,
     setTransliteration options b w0 = Some (r, w1) -> exists added, clears added)
  /\ (forall r,
        toggleTransliteration options w0 = Some (r, w1) ->
        exists added, clears added)
  /\ (forall st hasDispatch r,
        transliterateSelection st hasDispatch w0 = Some (r, w1) ->
        exists added, clears added)
  /\ (forall view from to text r,
        handleTextInput options view from to text w0 = Some (r, w1) ->
        exists added, clears added)
  /\ (forall view event r,
        handleKeyDown options view event w0 = Some (r, w1) ->
        exists added, clears added).
Proof.
  intros clears. subst clears. destruct w0 as [[e en] t0].
  repeat split; intros; revert H; unfold_entry;
    cbn [storage trace engine enabled]; split_run;
    intros [= <- <-] || discriminate;
    cbn [storage trace];
    first [ exists []; split; [symmetry; apply app_nil_r | reflexivity]
          | rewrite <- ?app_assoc; eexists; split; reflexivity ].
Qed.

(** X13.  The toggle commands compose by last write: after
    [setTransliteration b1] and then [setTransliteration b2] the flag is
    [b2], and after [setTransliteration b] and then [toggleTransliteration]
    it is the negation of [b]; the engine is untouched, and the callback has
    been cleared once for each of the two steps that disabled. *)
Theorem toggle_commands_compose (b1 b2 : bool) (w0 : World) :
  let cleared (b : bool) :=
    if negb b && onSuggestionsUpdate options
    then [SuggestionsUpdate [] None] else [] in
  exists w1 w2 w3,
    setTransliteration options b1 w0 = Some (true, w1)
    /\ setTransliteration options b2 w1 = Some (true, w2)
    /\ w2 = mkWorld (mkStorage (engine (storage w0)) b2)
              (trace w0 ++ cleared b1 ++ cleared b2)
    /\ toggleTransliteration options w1 = Some (true, w3)
    /\ w3 = mkWorld (mkStorage (engine (storage w0)) (negb b1))
              (trace w0 ++ cleared b1 ++ cleared (negb b1)).
Proof.
  intros cleared. subst cleared. destruct w0 as [[e en] t0].
  unfold_entry. cbn [storage trace engine enabled].
  destruct b1, b2, (onSuggestionsUpdate options);
    cbn [negb andb storage trace engine enabled];
    eexists _, _, _;
    (split; [reflexivity|]); (split; [reflexivity|]);
    (split; [cbn [storage trace engine enabled app];
             rewrite <- ?app_assoc, ?app_nil_r; reflexivity|]);
    (split; [reflexivity|]);
    cbn [storage trace engine enabled app];
    rewrite <- ?app_assoc, ?app_nil_r; reflexivity.
Qed.

End Further.

(** ** The standalone handler and the current word *)

(** X14.  The handler of [createSuggestionHandler] wraps the engine built
    from the given configuration, or from the Tamil one when none is given.
    Its [getSuggestions] returns the entries of the engine in the same
    order and number, each with [tanglish] equal to [input] and [tamil]
    equal to [output], and asks for 10 when no limit is given; its
    [transliterate] and [containsTargetScript] are those of the engine. *)
Theorem createSuggestionHandler_wraps_engine {LanguageConfig : Type}
    (newEngine : LanguageConfig -> TransliterationEngine)
    (tamilConfig : LanguageConfig) (config : option LanguageConfig)
    (query : jsstring) (limit : option number) :
  let h := createSuggestionHandler newEngine tamilConfig config in
  let eng := newEngine (default tamilConfig config) in
  let raw := getSuggestions eng query (default 10%float limit) in
  h_engine h = eng
  /\ map ts_input (h_getSuggestions h query limit) = map input raw
  /\ map ts_output (h_getSuggestions h query limit) = map output raw
  /\ map tanglish (h_getSuggestions h query limit) = map input raw
  /\ map tamil (h_getSuggestions h query limit) = map output raw
  /\ h_getSuggestions h query None = h_getSuggestions h query (Some 10%float)
  /\ h_transliterate h query = transliterate eng query
  /\ h_containsTargetScript h query = containsTargetScript eng query.
Proof.
  intros h eng raw. subst h eng raw.
  destruct config, limit; cbn; rewrite !map_map; repeat split; reflexivity.
Qed.

Lemma lastWord_after_whitespace (s t : jsstring) (c : char16) :
  isWhiteSpace c = true -> lastWord (s ++ c :: t) = lastWord t.
Proof.
  intros Hc.
  assert (Hno : forall u, forallb isNonSpace (u ++ c :: t) = false).
  { intros u. rewrite forallb_app. cbn [forallb]. unfold isNonSpace at 2.
    rewrite Hc. cbn [negb andb]. apply andb_false_r. }
  induction s as [|a s IH].
  - pose proof (Hno []) as H0. cbn [app] in H0.
    cbn [app lastWord]. rewrite H0. reflexivity.
  - change ((a :: s) ++ c :: t) with (a :: (s ++ c :: t)).
    cbn [lastWord]. change (a :: (s ++ c :: t)) with ((a :: s) ++ c :: t).
    rewrite Hno. exact IH.
Qed.

(** X15.  How the current word follows the text.  Inserting one code unit
    at the cursor of a block ends the word when the unit is whitespace, and
    otherwise extends the word by that unit (or starts a word with it).  The
    word depends only on what follows the last whitespace before the
    cursor. *)
Theorem current_word_after_typing (b : textblock) (o : nat) (c : char16) :
  o <= length b ->
  let before := textBetween (Some [ufffc]) b 0 o in
  let b' := take o b ++ Chr c :: drop o b in
  lastWord (textBetween (Some [ufffc]) b' 0 (S o)) =
    (if isWhiteSpace c then None
     else Some (match lastWord before with
                | Some w => w ++ [c]
                | None => [c]
                end))
  /\ forall s t, before = s ++ c :: t -> isWhiteSpace c = true ->
       lastWord before = lastWord t.
Proof.
  intros Ho before b'. split.
  - unfold b', before. rewrite !textBetween_render, !Nat.sub_0_r, !drop_0.
    replace (take o b ++ Chr c :: drop o b)
      with ((take o b ++ [Chr c]) ++ drop o b)
      by (rewrite <- app_assoc; reflexivity).
    rewrite take_app_length'
      by (rewrite length_app, length_take; cbn [length]; lia).
    rewrite map_app. cbn [map renderUnit]. apply lastWord_snoc.
  - intros s t -> Hc. now apply lastWord_after_whitespace.
Qed.

(** ** The further properties at sample inputs *)

Lemma onCreate_disabled_is_inert_witness :
  onCreate sampleNewEngine (addOptions tt) initialWorld =
    Some (tt, mkWorld (mkStorage (Some sampleEngine) false) [])
  /\ onCreate sampleNewEngine sampleOptions initialWorld =
     Some (tt, mkWorld (mkStorage (Some sampleEngine) true) [])
  /\ handleTextInput (addOptions tt) (sampleView (js "vanakkam")) 9 9
       (js " ") (mkWorld (mkStorage (Some sampleEngine) false) [])
     = Some (false, mkWorld (mkStorage (Some sampleEngine) false) []).
Proof.
  destruct (onCreate_disabled_is_inert sampleNewEngine (addOptions tt)
              initialWorld) as [Hoff Hinert].
  destruct (onCreate_disabled_is_inert sampleNewEngine sampleOptions
              initialWorld) as [Hon _].
  destruct (Hinert eq_refl) as (Htext & _ & _).
  split; [exact Hoff|]. split; [exact Hon|].
  exact (Htext (sampleView (js "vanakkam")) 9 9 (js " ")).
Defined.

Lemma update_silent_when_inactive_witness :
  update sampleOptions (sampleView (js "van")) disabledWorld =
  Some (tt, disabledWorld).
Proof.
  apply (update_silent_when_inactive sampleOptions). left. reflexivity.
Defined.

Lemma update_calls_once_witness :
  exists suggestions position,
    update sampleOptions (sampleView (js "van")) sampleWorld =
      Some (tt, mkWorld (storage sampleWorld)
                  [SuggestionsUpdate suggestions position])
    /\ anchored (SuggestionsUpdate suggestions position) = true.
Proof.
  destruct (update_calls_once sampleOptions (sampleView (js "van"))
              sampleWorld sampleEngine
              (mkResolvedPos (Block 0 (map Chr (js "van"))) 3)
              eq_refl eq_refl eq_refl eq_refl)
    as (suggestions & position & Hrun & Hanchored & _).
  exists suggestions, position. split; [exact Hrun | exact Hanchored].
Defined.

Lemma handleKeyDown_ignores_witness :
  handleKeyDown sampleOptions (sampleView (js "nandri"))
    {| key := js "a" |} sampleWorld =
  Some (false, sampleWorld).
Proof.
  apply (handleKeyDown_ignores sampleOptions). left. discriminate.
Defined.

Lemma handleKeyDown_keeps_word_witness :
  handleKeyDown sampleOptions (sampleView nandri_ta) enterKey sampleWorld =
  Some (false, sampleWorld).
Proof.
  apply (handleKeyDown_keeps_word sampleOptions (sampleView nandri_ta)
           enterKey sampleWorld sampleEngine
           (mkResolvedPos (Block 0 (map Chr nandri_ta)) 5)
           eq_refl eq_refl eq_refl eq_refl).
  right. exists nandri_ta. split; [reflexivity|]. left. reflexivity.
Defined.

Lemma handleKeyDown_at_most_one_transaction_witness :
  exists w1,
    handleKeyDown sampleOptions (sampleView (js "nandri")) enterKey sampleWorld
      = Some (false, w1)
    /\ storage w1 = storage sampleWorld.
Proof.
  destruct (handleKeyDown_at_most_one_transaction sampleOptions
              (sampleView (js "nandri")) enterKey sampleWorld)
    as (w1 & Hrun & Hsto & _).
  - eexists. reflexivity.
  - exists w1. split; [exact Hrun | exact Hsto].
Defined.

Lemma handleTextInput_true_iff_dispatched_witness :
  exists r w1,
    handleTextInput sampleOptions (sampleView (js "vanakkam")) 9 9 (js " ")
      sampleWorld = Some (r, w1)
    /\ storage w1 = storage sampleWorld.
Proof.
  destruct (handleTextInput_true_iff_dispatched sampleOptions
              (sampleView (js "vanakkam")) 9 9 (js " ") sampleWorld)
    as (r & w1 & Hrun & Hsto & _).
  - eexists. reflexivity.
  - exists r, w1. split; [exact Hrun | exact Hsto].
Defined.

Lemma word_range_in_block_witness :
  resolve [map Chr (js "say vanakkam")] (13 - 8)
    = Some (mkResolvedPos (Block 0 (map Chr (js "say vanakkam"))) (12 - 8))
  /\ textBetween (Some [ufffc]) (map Chr (js "say vanakkam")) (12 - 8) 12
     = js "vanakkam".
Proof.
  exact (proj2 (word_range_in_block [map Chr (js "say vanakkam")] 13 0
                  (map Chr (js "say vanakkam")) 12 (js "vanakkam")
                  eq_refl eq_refl)).
Defined.

Lemma enter_replaces_what_trigger_replaces_witness :
  exists wordStart transliterated,
    handleTextInput sampleOptions (sampleView (js "nandri")) 7 7 (js " ")
      sampleWorld =
    Some (true,
          mkWorld (storage sampleWorld)
            (Dispatch [StepDelete wordStart 7;
                       StepInsertText (transliterated ++ js " ") wordStart]
             :: notifications true)).
Proof.
  destruct (enter_replaces_what_trigger_replaces sampleOptions
              (sampleView (js "nandri")) enterKey 7 (js " ") sampleWorld
              (mkWorld (storage sampleWorld)
                 [Dispatch [StepDelete 1 7; StepInsertText nandri_ta 1];
                  SuggestionsUpdate [] None]))
    as (wordStart & transliterated & _ & Hrun).
  - apply list_elem_of_In. left. reflexivity.
  - reflexivity.
  - intros H. apply (f_equal trace) in H. discriminate H.
  - exists wordStart, transliterated. exact Hrun.
Defined.

Lemma second_trigger_after_commit_witness :
  handleTextInput sampleOptions (sampleView (vanakkam_ta ++ js " ")) 9 9
    (js " ") sampleWorld = Some (false, sampleWorld)
  /\ update sampleOptions (sampleView (vanakkam_ta ++ js " ")) sampleWorld =
     Some (tt, mkWorld (storage sampleWorld) [SuggestionsUpdate [] None]).
Proof.
  destruct (second_trigger_after_commit sampleOptions
              [map Chr (js "vanakkam")] 9 0 (map Chr (js "vanakkam")) 8
              (js "vanakkam") (vanakkam_ta ++ js " ") 32%N
              (sampleView (vanakkam_ta ++ js " "))
              eq_refl eq_refl eq_refl eq_refl eq_refl eq_refl)
    as (_ & Htext & _ & Hupdate).
  split.
  - apply (Htext 9 (js " ") sampleWorld).
  - apply (Hupdate sampleWorld); [reflexivity | eexists; reflexivity
                                  | reflexivity].
Defined.

Lemma storage_written_only_by_toggle_commands_witness :
  engine (storage (mkWorld (mkStorage (Some sampleEngine) false)
                     [SuggestionsUpdate [] None]))
  = engine (storage sampleWorld).
Proof.
  exact (proj1 (storage_written_only_by_toggle_commands sampleOptions
                  sampleWorld
                  (mkWorld (mkStorage (Some sampleEngine) false)
                     [SuggestionsUpdate [] None]))
           false true eq_refl).
Defined.

Lemma only_update_shows_suggestions_witness :
  exists added,
    [Dispatch [StepDelete 1 7; StepInsertText nandri_ta 1];
     SuggestionsUpdate [] None] = trace sampleWorld ++ added
    /\ forallb (fun e => negb (isSuggestionsUpdate e) || isClear e) added
       = true.
Proof.
  destruct (only_update_shows_suggestions sampleOptions sampleWorld
              (mkWorld (storage sampleWorld)
                 [Dispatch [StepDelete 1 7; StepInsertText nandri_ta 1];
                  SuggestionsUpdate [] None]))
    as (_ & _ & _ & _ & Hkey).
  exact (Hkey (sampleView (js "nandri")) enterKey false eq_refl).
Defined.

Lemma current_word_after_typing_witness :
  lastWord (textBetween (Some [ufffc])
              (take 2 (map Chr (js "ab")) ++ Chr 99%N
               :: drop 2 (map Chr (js "ab"))) 0 3)
  = Some (js "abc").
Proof.
  exact (proj1 (current_word_after_typing (map Chr (js "ab")) 2 99%N
                  ltac:(cbn; lia))).
Defined.
